(** * WAL cleaner of the agent: a shallow embedding and its properties

    The Go package [cleaner] looks for write-ahead-log (WAL) storage
    directories that no managed instance refers to any more and that have not
    been written to for longer than [minAge].  This file embeds the package
    ([getManagedStorage], [getAllStorage], [lastWrittenTime],
    [abandonedStorage], [CleanupStorage], [run], [Stop], [NewCleaner]) together
    with the part of the Go standard library and of the Prometheus WAL package
    it calls, and proves what the package does.

    Layout: the library models come first (time, errors, paths, the file tree
    and [filepath.Walk], the WAL handle), then the cleaner itself, then the
    scheduler as a transition system, then the theorems.

    What is assumed of Go: [Time.Sub] saturates at the bounds of [int64];
    [filepath.Walk] is the walk of Go 1.15 (the function is called once for
    every node, with the error of [Lstat] or of reading the names of a
    directory); the channel of a [time.Ticker] buffers one tick and
    [Ticker.Stop] leaves a buffered tick in place (Go before 1.23); a
    [select] with several ready cases takes any of them; closing a closed
    channel panics; [time.NewTicker] panics on a non-positive duration.  The
    disk does not change during a pass. *)

From Stdlib Require Import ZArith Lia.
From stdpp Require Import base strings pretty gmap list.

Local Open Scope Z_scope.

(** ** Package [time] *)

Module time.

(** A [time.Time] read from the wall clock, as nanoseconds since the Unix
    epoch.  File modification times carry no monotonic reading, so
    [Time.Sub] always compares wall-clock instants here. *)
Definition Time : Type := Z.

(** A [time.Duration] is an [int64] count of nanoseconds. *)
Definition Duration : Type := Z.

Definition minDuration : Duration := - 2 ^ 63.
Definition maxDuration : Duration := 2 ^ 63 - 1.

Definition Nanosecond : Duration := 1.
Definition Second : Duration := 1000000000 * Nanosecond.
Definition Hour : Duration := 3600 * Second.

(** The values an [int64] duration can take. *)
Definition isDuration (d : Duration) : Prop :=
  minDuration <= d <= maxDuration.

(** [t.Sub(u)]: the duration [t - u]; when it does not fit a [Duration] the
    minimum or the maximum duration is returned. *)
Definition Sub (t u : Time) : Duration :=
  if t - u <? minDuration then minDuration
  else if maxDuration <? t - u then maxDuration
  else t - u.

(** [time.Time{}], January 1 of year 1, 00:00:00 UTC. *)
Definition zero : Time := - 62135596800 * Second.

(** A [*time.Ticker]: whether it is still running, and its channel [C],
    which buffers one tick ([full] when a tick waits to be received). *)
Record Ticker : Type := mkTicker {
  running : bool;
  full : bool
}.

End time.

(** A call either returns or panics with a message. *)
Inductive outcome (A : Type) : Type :=
| Returns (a : A)
| Panics (msg : string).
Arguments Returns {A} a.
Arguments Panics {A} msg.

(** ** Errors and log lines *)

(** Go [error] values.  [SkipDir] is [filepath.SkipDir]; [LibError] stands for
    an error made by a library ([os], [filepath], the Prometheus WAL);
    [Errorf] is an error made by [fmt.Errorf] with the formatted text. *)
Inductive error : Type :=
| SkipDir
| LibError (msg : string)
| Errorf (msg : string).

#[global] Instance error_eq_dec : EqDecision error.
Proof. solve_decision. Defined.

Module level.
Inductive Level : Type := Debug | Info | Warn | Error.
End level.

(** A value logged under a key. *)
Inductive logval : Type :=
| VStr (s : string)
| VErr (e : error)
| VTime (t : time.Time)
| VDur (d : time.Duration).

Record LogLine : Type := mkLogLine {
  line_level : level.Level;
  line_keyvals : list (string * logval)
}.

(** ** Packages [path] and [path/filepath] (Unix) *)

Definition slash : Ascii.ascii := Ascii.ascii_of_nat 47.

Definition isSlash (c : Ascii.ascii) : bool := Ascii.eqb c slash.

Module path.

(** [strings.Split(s, "/")] *)
Fixpoint SplitSlash (s : string) : list string :=
  match s with
  | EmptyString => [EmptyString]
  | String c rest =>
      if isSlash c then EmptyString :: SplitSlash rest
      else match SplitSlash rest with
           | hd :: tl => String c hd :: tl
           | [] => [String c EmptyString]
           end
  end.

(** [strings.Join(elems, "/")] *)
Fixpoint JoinSlash (elems : list string) : string :=
  match elems with
  | [] => ""
  | [e] => e
  | e :: rest => e +:+ "/" +:+ JoinSlash rest
  end.

Definition HasSlashPrefix (s : string) : bool :=
  match s with
  | String c _ => isSlash c
  | EmptyString => false
  end.

(** One element of the path against the elements kept so far ([kept] is in
    reverse order), see [Clean]. *)
Definition cleanElem (rooted : bool) (kept : list string) (e : string)
  : list string :=
  if String.eqb e "" then kept
  else if String.eqb e "." then kept
  else if String.eqb e ".." then
    match kept with
    | k :: kept' => if String.eqb k ".." then e :: kept else kept'
    | [] => if rooted then [] else [e]
    end
  else e :: kept.

(** [path.Clean]: the shortest path equivalent to [p] by purely lexical
    processing: multiple slashes become one, [.] elements go, an inner [..]
    goes with the element before it, [..] at the start of a rooted path
    goes; the result ends in a slash only if it is the root, and the empty
    result is [.]. *)
Definition Clean (p : string) : string :=
  let rooted := HasSlashPrefix p in
  let kept := foldl (cleanElem rooted) [] (SplitSlash p) in
  let body := JoinSlash (reverse kept) in
  let out := if rooted then "/" +:+ body else body in
  if String.eqb out "" then "." else out.

(** [path.Split]: splits [p] immediately after the final slash. *)
Fixpoint Split (p : string) : string * string :=
  match p with
  | EmptyString => ("", "")
  | String c rest =>
      let (dir, file) := Split rest in
      if String.eqb dir "" then
        if isSlash c then ("/", file) else ("", String c file)
      else (String c dir, file)
  end.

(** [path.Dir]: all but the last element of [p], cleaned. *)
Definition Dir (p : string) : string := Clean (fst (Split p)).

End path.

(** ** The file tree, [os.FileInfo] and [filepath.Walk] *)

Module os.

(** The part of [os.FileInfo] the cleaner reads. *)
Record FileInfo : Type := mkFileInfo {
  IsDir : bool;
  ModTime : time.Time
}.

End os.

(** What [os.Lstat] and the listing of directory names show of the tree under
    a path: a [File] is anything that is not a directory (a symbolic link
    too, which [Lstat] does not follow), a [Dir] a directory whose names
    can be read, a [NoReadDir] a directory whose names cannot be read, a
    [NoLstat] an entry on which [Lstat] fails.  The entries of a directory
    are in the order [filepath.Walk] visits them (lexical order of the
    names). *)
#[warnings="-register-all"]
Inductive Node : Type :=
| File (mtime : time.Time)
| Dir (mtime : time.Time) (entries : list (string * Node))
| NoReadDir (mtime : time.Time) (err : error)
| NoLstat (err : error).

(** The outcome of a library call that returns [(value, error)]. *)
Inductive result (A : Type) : Type :=
| Ok (a : A)
| Err (e : error).
Arguments Ok {A} a.
Arguments Err {A} e.

Module filepath.

(** [filepath.Join(a, b)] *)
Definition Join (a b : string) : string :=
  if negb (String.eqb a "") then path.Clean (a +:+ "/" +:+ b)
  else if negb (String.eqb b "") then path.Clean b
  else "".

(** [filepath.WalkFunc], with the state the closure works on made
    explicit.  [info] is [None] for Go's nil [os.FileInfo]. *)
Definition WalkFunc (St : Type) : Type :=
  string → option os.FileInfo → option error → St → St * option error.

Definition lstatInfo (n : Node) : option os.FileInfo :=
  match n with
  | File m => Some (os.mkFileInfo false m)
  | Dir m _ | NoReadDir m _ => Some (os.mkFileInfo true m)
  | NoLstat _ => None
  end.

(** Whether [SkipDir] returned for this entry lets the walk of the parent
    directory go on: it does for a directory and for an entry whose
    [Lstat] failed, it does not for a file. *)
Definition skippable (n : Node) : bool :=
  match n with
  | File _ => false
  | _ => true
  end.

(** [filepath.walk], together with the call of [walkFn] that its caller
    makes when [Lstat] fails on the entry (the [NoLstat] case).  For a
    directory [walkFn] is called with the error of reading its names, if
    any; the walk descends only when both that error and the result of
    [walkFn] are nil.  In the loop over the names, an error other than an
    admissible [SkipDir] ends the walk. *)
Fixpoint walk {St : Type} (walkFn : WalkFunc St) (p : string) (n : Node)
    (s : St) {struct n} : St * option error :=
  match n with
  | NoLstat err => walkFn p None (Some err) s
  | File _ => walkFn p (lstatInfo n) None s
  | NoReadDir _ err => walkFn p (lstatInfo n) (Some err) s
  | Dir _ entries =>
      let '(s1, err1) := walkFn p (lstatInfo n) None s in
      match err1 with
      | Some _ => (s1, err1)
      | None =>
          (fix loop (es : list (string * Node)) (s : St)
             : St * option error :=
             match es with
             | [] => (s, None)
             | (name, child) :: es' =>
                 let '(s', r) := walk walkFn (Join p name) child s in
                 match r with
                 | None => loop es' s'
                 | Some e =>
                     if skippable child && bool_decide (e = SkipDir)
                     then loop es' s'
                     else (s', Some e)
                 end
             end) entries s1
      end
  end.

(** [filepath.Walk(root, walkFn)] on the tree [n] found at [root]. *)
Definition Walk {St : Type} (root : string) (n : Node)
    (walkFn : WalkFunc St) (s : St) : St * option error :=
  let '(s', err) := walk walkFn root n s in
  (s', if bool_decide (err = Some SkipDir) then None else err).

End filepath.

(** ** The world the cleaner runs in *)

(** The disk as the library calls of one pass see it: the tree at a path
    (for [filepath.Walk]), and the answers of [promwal.Open],
    [WAL.Segments], [WAL.Close] and [os.Stat] for a path. *)
Record Disk : Type := mkDisk {
  treeAt : string → Node;
  walOpen : string → option error;
  walSegments : string → result (Z * Z);
  walClose : string → option error;
  statAt : string → result os.FileInfo
}.

(** The world: the disk, the wall clock, the lines logged so far through the
    logger, and the directories of the WAL handles that are open. *)
Record World : Type := mkWorld {
  disk : Disk;
  clock : time.Time;
  logged : list LogLine;
  openWALs : list string
}.

Definition withLogged (w : World) (l : list LogLine) : World :=
  mkWorld (disk w) (clock w) l (openWALs w).

Definition withOpenWALs (w : World) (o : list string) : World :=
  mkWorld (disk w) (clock w) (logged w) o.

(** Computations that read and change the world. *)
Definition M (A : Type) : Type := World → A * World.

#[global] Instance M_ret : MRet M := λ A a w, (a, w).

#[global] Instance M_bind : MBind M :=
  λ A B f m w, let '(a, w') := m w in f a w'.

(** [defer d; body]: [d] runs when the function returns, whatever the
    return statement. *)
Definition defer {A B : Type} (d : M B) (body : M A) : M A :=
  a ← body; _ ← d; mret a.

(** A [for ... range] loop run for its effects. *)
Fixpoint forRange {A : Type} (l : list A) (body : A → M unit) : M unit :=
  match l with
  | [] => mret ()
  | a :: l' => _ ← body a; forRange l' body
  end.

(** [level.X(logger).Log(keyvals...)] *)
Definition Log (lvl : level.Level) (keyvals : list (string * logval))
  : M unit :=
  λ w, ((), withLogged w (logged w ++ [mkLogLine lvl keyvals])).

(** [time.Now()] *)
Definition Now : M time.Time := λ w, (clock w, w).

(** [os.Stat(name)] *)
Definition Stat (name : string) : M (result os.FileInfo) :=
  λ w, (statAt (disk w) name, w).

(** Removes the first occurrence of [x]. *)
Fixpoint removeFirst (x : string) (l : list string) : list string :=
  match l with
  | [] => []
  | y :: l' => if String.eqb x y then l' else y :: removeFirst x l'
  end.

Module promwal.

(** A [*wal.WAL] opened on a directory. *)
Record WAL : Type := mkWAL { dir : string }.

(** [wal.Open]: opens an existing WAL; the handle is held until [Close]. *)
Definition Open (d : string) : M (result WAL) :=
  λ w, match walOpen (disk w) d with
       | Some err => (Err err, w)
       | None => (Ok (mkWAL d), withOpenWALs w (d :: openWALs w))
       end.

(** [WAL.Segments]: the indexes of the first and the last segment,
    [-1] and [-1] when there is none. *)
Definition Segments (h : WAL) : M (result (Z * Z)) :=
  λ w, (walSegments (disk w) (dir h), w).

(** [WAL.Close] *)
Definition Close (h : WAL) : M (option error) :=
  λ w, (walClose (disk w) (dir h),
        withOpenWALs w (removeFirst (dir h) (openWALs w))).

(** [fmt.Sprintf("%08d", i)] *)
Definition Sprintf08d (i : Z) : string :=
  let digits := pretty (Z.abs i) in
  let sign := if i <? 0 then "-" else "" in
  let width := (String.length sign + String.length digits)%nat in
  sign +:+ String.concat "" (replicate (8 - width)%nat "0") +:+ digits.

(** [wal.SegmentName] *)
Definition SegmentName (d : string) (i : Z) : string :=
  filepath.Join d (Sprintf08d i).

End promwal.

Module wal.

(** Modelled from the spec: [wal.SubDirectory] of the agent's package
    [pkg/prom/wal], whose source is not part of what is verified here; the
    layout is [walRootPath/<storage>/<wal-subdir>/<segments>] and the
    sub-directory is named [wal]. *)
Definition SubDirectory (base : string) : string :=
  filepath.Join base "wal".

End wal.

(** Modelled from the spec: the instance registry of the agent's package
    [pkg/prom/instance]: [ListInstances] gives a mapping from instance
    identifier to [ManagedInstance], which exposes [StorageDirectory]. *)
Record ManagedInstance : Type := mkManagedInstance {
  StorageDirectory : string
}.

Record Manager : Type := mkManager {
  ListInstances : gmap string ManagedInstance
}.

(** ** Package [cleaner] *)

(** The fields of [walCleaner] that a pass reads; [ticker] and [done] are
    part of the scheduler's state below, the logger is the log of the
    world. *)
Record walCleaner : Type := mkWalCleaner {
  walDirectory : string;
  instanceManager : Manager;
  minAge : time.Duration
}.

Section Cleaner.

Variable c : walCleaner.

(** Get storage directories used for each ManagedInstance *)
Definition getManagedStorage (instances : gmap string ManagedInstance)
  : gmap string bool :=
  map_fold (λ _ inst out, <[StorageDirectory inst := true]> out) ∅ instances.

(** [managed[dir]] of a Go [map[string]bool]: false for an absent key. *)
Definition lookupBool (managed : gmap string bool) (d : string) : bool :=
  default false (managed !! d).

(** The function literal passed to [filepath.Walk] in [getAllStorage].  It
    appends to the captured [out] and logs, and always returns nil.
    ([Walk] passes a nil [info] only together with an error, so the last
    case, where Go would fail on the nil [info], does not occur.) *)
Definition getAllStorageFn
  : filepath.WalkFunc (list string * World) :=
  λ p info err '(out, w),
    let root := walDirectory c in
    match err with
    | Some e =>
        let '(_, w') :=
          Log level.Warn [("msg", VStr "unable to traverse WAL storage path");
                          ("path", VStr p); ("err", VErr e)] w in
        ((out, w'), None)
    | None =>
        match info with
        | Some i =>
            if os.IsDir i && String.eqb (path.Dir p) root
            then ((out ++ [p], w), None)
            else ((out, w), None)
        | None => ((out, w), None)
        end
    end.

(** Get all Storage directories under walDirectory *)
Definition getAllStorage : M (list string) :=
  λ w,
    let root := walDirectory c in
    let '((out, w'), _) :=
      filepath.Walk root (treeAt (disk w) root) getAllStorageFn ([], w) in
    (out, w').

(** Get the mtime of the most recent WAL segment based on the Storage
    directory *)
Definition lastWrittenTime (storage : string)
  : M (time.Time * option error) :=
  let walDir := wal.SubDirectory storage in
  let empty := time.zero in
  r ← promwal.Open walDir;
  match r with
  | Err err => mret (empty, Some err)
  | Ok existing =>
      defer (promwal.Close existing) (
        r ← promwal.Segments existing;
        match r with
        | Err err => mret (empty, Some err)
        | Ok (_, last) =>
            if last =? -1 then
              mret (empty,
                    Some (Errorf ("unable to determine most recent segment for "
                                  +:+ walDir)))
            else
              let lastSegment := promwal.SegmentName walDir last in
              r ← Stat lastSegment;
              match r with
              | Err err => mret (empty, Some err)
              | Ok segmentFile => mret (os.ModTime segmentFile, None)
              end
        end)
  end.

(** The loop of [abandonedStorage] over [all], with [out] as built so
    far. *)
Fixpoint abandonedLoop (managed : gmap string bool) (now : time.Time)
    (all : list string) (out : list string) : M (list string) :=
  match all with
  | [] => mret out
  | d :: rest =>
      if negb (lookupBool managed d) then
        '(mtime, err) ← lastWrittenTime d;
        match err with
        | Some e =>
            _ ← Log level.Warn
                  [("msg", VStr "unable to find segment mtime of WAL");
                   ("name", VStr d); ("err", VErr e)];
            abandonedLoop managed now rest out
        | None =>
            let diff := time.Sub now mtime in
            let out' := if diff >? minAge c then out ++ [d] else out in
            _ ← Log level.Debug
                  [("msg", VStr "abandoned WAL"); ("name", VStr d);
                   ("mtime", VTime mtime); ("diff", VDur diff)];
            abandonedLoop managed now rest out'
        end
      else
        _ ← Log level.Debug [("msg", VStr "active WAL"); ("name", VStr d)];
        abandonedLoop managed now rest out
  end.

(** Get the full path of storage directories that aren't referenced by any
    instance.ManagedInstance and haven't been written to within a configured
    duration *)
Definition abandonedStorage (instances : gmap string ManagedInstance)
    (now : time.Time) : M (list string) :=
  let managed := getManagedStorage instances in
  all ← getAllStorage;
  abandonedLoop managed now all [].

Definition CleanupStorage : M (option error) :=
  let instances := ListInstances (instanceManager c) in
  now ← Now;
  abandoned ← abandonedStorage instances now;
  _ ← forRange abandoned (λ a,
        Log level.Info [("msg", VStr "would delete WAL"); ("name", VStr a)]);
  mret None.

End Cleaner.

(** ** The scheduler: ticker, [done] channel and the goroutine of [run] *)

(** [time.NewTicker(d)] panics when [d] is not positive. *)
Definition NewTicker (d : time.Duration) : outcome time.Ticker :=
  if d <=? 0 then Panics "non-positive interval for NewTicker"
  else Returns (time.mkTicker true false).

(** [Ticker.Stop]: no more ticks are sent; the channel is not closed and
    keeps a tick it holds. *)
Definition TickerStop (t : time.Ticker) : time.Ticker :=
  time.mkTicker false (time.full t).

(** The ticker sends a tick on its channel, or drops it when the buffer is
    full; nothing happens once it is stopped. *)
Definition TickerFire (t : time.Ticker) : option time.Ticker :=
  if time.running t then Some (time.mkTicker true true) else None.

(** [close(ch)] on a channel that is closed ([true]) or not. *)
Definition close (closed : bool) : outcome bool :=
  if closed then Panics "close of closed channel" else Returns true.

(** Where the goroutine started by [go c.run()] is: blocked in [select],
    inside [c.CleanupStorage()], or returned. *)
Inductive Task : Type := Selecting | InPass | Exited.

(** The mutable state around one cleaner: the world, the ticker and the
    [done] channel of the struct ([done] is true when closed), the goroutine,
    and the number of passes begun so far. *)
Record Runtime : Type := mkRuntime {
  world : World;
  ticker : time.Ticker;
  done : bool;
  task : Task;
  passesBegun : nat
}.

(** [NewCleaner]: builds the struct (which creates the ticker and the
    channel), starts the goroutine and returns. *)
Definition NewCleaner (manager : Manager) (walDirectory : string)
    (minAge period : time.Duration) (w : World)
  : outcome (walCleaner * Runtime) :=
  match NewTicker period with
  | Panics msg => Panics msg
  | Returns t =>
      let c := mkWalCleaner walDirectory manager minAge in
      Returns (c, mkRuntime w t false Selecting 0)
  end.

(** [Stop] *)
Definition Stop (rt : Runtime) : outcome Runtime :=
  let '(_, w) := Log level.Debug [("msg", VStr "stopping cleaner...")]
                   (world rt) in
  let t := TickerStop (ticker rt) in
  match close (done rt) with
  | Panics msg => Panics msg
  | Returns d => Returns (mkRuntime w t d (task rt) (passesBegun rt))
  end.

(** What can happen next besides calls of the public methods: the ticker
    fires; the [select] of [run] takes the [done] case or the tick case (when
    both are ready either may be taken); the pass begun by a tick returns. *)
Inductive event : Type := Tick | RecvDone | RecvTick | PassReturns.

(** The body of the tick case of [run]. *)
Definition runTick (c : walCleaner) : M unit :=
  err ← CleanupStorage c;
  match err with
  | Some e => Log level.Error [("msg", VStr "cleanup failed"); ("err", VErr e)]
  | None => mret ()
  end.

(** One event, [None] when it cannot happen in this state. *)
Definition exec (c : walCleaner) (e : event) (rt : Runtime)
  : option Runtime :=
  match e with
  | Tick =>
      match TickerFire (ticker rt) with
      | Some t => Some (mkRuntime (world rt) t (done rt) (task rt)
                                  (passesBegun rt))
      | None => None
      end
  | RecvDone =>
      match task rt with
      | Selecting =>
          if done rt
          then Some (mkRuntime (world rt) (ticker rt) (done rt) Exited
                               (passesBegun rt))
          else None
      | _ => None
      end
  | RecvTick =>
      match task rt with
      | Selecting =>
          if time.full (ticker rt)
          then Some (mkRuntime (world rt)
                               (time.mkTicker (time.running (ticker rt)) false)
                               (done rt) InPass (S (passesBegun rt)))
          else None
      | _ => None
      end
  | PassReturns =>
      match task rt with
      | InPass =>
          let '(_, w) := runTick c (world rt) in
          Some (mkRuntime w (ticker rt) (done rt) Selecting (passesBegun rt))
      | _ => None
      end
  end.

(** A sequence of events, from left to right. *)
Fixpoint execAll (c : walCleaner) (es : list event) (rt : Runtime)
  : option Runtime :=
  match es with
  | [] => Some rt
  | e :: es' =>
      match exec c e rt with
      | Some rt' => execAll c es' rt'
      | None => None
      end
  end.

(** No event can happen. *)
Definition stuck (c : walCleaner) (rt : Runtime) : Prop :=
  ∀ e, exec c e rt = None.

(** ** A concrete WAL root

    The root [/wal] holds [inst-1], [inst-2] and [orphan-1]; each has a [wal]
    sub-directory with segments.  The newest segment of [orphan-1] was
    written 10 hours before [now]; the registry knows [inst-1] and
    [inst-2]; [minAge] is 6 hours. *)
Module Scenario.

Definition now : time.Time := 1600000000 * time.Second.

Definition storage (segment : string) (mtime : time.Time) : Node :=
  Dir mtime [("wal", Dir mtime [(segment, File mtime)])].

Definition root : Node :=
  Dir now [("inst-1", storage "00000007" (now - 60 * time.Second));
           ("inst-2", storage "00000002" (now - 11 * time.Hour));
           ("orphan-1", storage "00000003" (now - 10 * time.Hour))].

Definition tree (p : string) : Node :=
  if String.eqb p "/wal" then root else NoLstat (LibError "no such file").

Definition segments (d : string) : result (Z * Z) :=
  if String.eqb d "/wal/inst-1/wal" then Ok (5, 7)
  else if String.eqb d "/wal/inst-2/wal" then Ok (0, 2)
  else if String.eqb d "/wal/orphan-1/wal" then Ok (1, 3)
  else Err (LibError "no such directory").

Definition stat (p : string) : result os.FileInfo :=
  if String.eqb p "/wal/inst-1/wal/00000007"
  then Ok (os.mkFileInfo false (now - 60 * time.Second))
  else if String.eqb p "/wal/inst-2/wal/00000002"
  then Ok (os.mkFileInfo false (now - 11 * time.Hour))
  else if String.eqb p "/wal/orphan-1/wal/00000003"
  then Ok (os.mkFileInfo false (now - 10 * time.Hour))
  else Err (LibError "no such file").

Definition theDisk : Disk :=
  mkDisk tree (λ _, None) segments (λ _, None) stat.

Definition theWorld : World := mkWorld theDisk now [] [].

Definition registry : Manager :=
  mkManager (<["a" := mkManagedInstance "/wal/inst-1"]>
             (<["b" := mkManagedInstance "/wal/inst-2"]> ∅)).

Definition cleaner : walCleaner :=
  mkWalCleaner "/wal" registry (6 * time.Hour).

(** The state right after [NewCleaner] with a period of one hour. *)
Definition started : Runtime :=
  mkRuntime theWorld (time.mkTicker true false) false Selecting 0.

(** A tick arrives and its pass begins; while the pass runs the next tick
    arrives and waits in the channel. *)
Definition busy : list event := [Tick; RecvTick; Tick].

End Scenario.

(** ** Notions used to state the properties *)

(** Whether a string has a slash. *)
Fixpoint hasSlash (s : string) : bool :=
  match s with
  | EmptyString => false
  | String c rest => isSlash c || hasSlash rest
  end.

(** The name of a directory entry: not empty, not [.] or [..], without
    slash. *)
Definition entryName (name : string) : Prop :=
  name ≠ "" ∧ name ≠ "." ∧ name ≠ ".." ∧ hasSlash name = false.

(** The cleaned elements of a path, in order. *)
Definition elems (p : string) : list string :=
  reverse (foldl (path.cleanElem (path.HasSlashPrefix p)) []
             (path.SplitSlash p)).

(** A list of cleaned elements as a path, see [path.Clean]. *)
Definition render (rooted : bool) (cs : list string) : string :=
  let out := if rooted then "/" +:+ path.JoinSlash cs else path.JoinSlash cs in
  if String.eqb out "" then "." else out.

(** What [lastWrittenTime] returns for a storage directory on a given disk
    (it reads nothing else of the world, see [lastWrittenTime_disk]). *)
Definition inspect (dk : Disk) (storage : string) : time.Time * option error :=
  (lastWrittenTime storage (mkWorld dk 0 [] [])).1.

(** The test [abandonedStorage] applies to one directory of [all]. *)
Definition eligible (c : walCleaner) (dk : Disk) (managed : gmap string bool)
    (now : time.Time) (d : string) : bool :=
  negb (lookupBool managed d) &&
  match inspect dk d with
  | (mtime, None) => time.Sub now mtime >? minAge c
  | (_, Some _) => false
  end.

(** The error [filepath.Walk] passes to the function for a node. *)
Definition readError (n : Node) : option error :=
  match n with
  | NoReadDir _ err | NoLstat err => Some err
  | File _ | Dir _ _ => None
  end.

(** Every node under [p], with its path, in the order of the walk: a node,
    then what is below each of its entries. *)
Fixpoint visits (p : string) (n : Node) {struct n} : list (string * Node) :=
  (p, n) ::
  match n with
  | Dir _ entries =>
      (fix below (es : list (string * Node)) : list (string * Node) :=
         match es with
         | [] => []
         | (name, child) :: es' =>
             visits (filepath.Join p name) child ++ below es'
         end) entries
  | _ => []
  end.

(** One call of the function given to [filepath.Walk] for a visited node,
    as far as the state goes. *)
Definition call {St : Type} (walkFn : filepath.WalkFunc St) (s : St)
    (v : string * Node) : St :=
  (walkFn v.1 (filepath.lstatInfo v.2) (readError v.2) s).1.

(** Induction on a tree, with the property available for every entry of a
    directory. *)
Fixpoint Node_nested_ind (P : Node → Prop)
    (HFile : ∀ m, P (File m))
    (HDir : ∀ m es, Forall (λ e, P e.2) es → P (Dir m es))
    (HNoRead : ∀ m e, P (NoReadDir m e))
    (HNoLstat : ∀ e, P (NoLstat e))
    (n : Node) {struct n} : P n :=
  match n with
  | File m => HFile m
  | Dir m es =>
      HDir m es
        ((fix entries (es : list (string * Node)) : Forall (λ e, P e.2) es :=
            match es return Forall (λ e, P e.2) es with
            | [] => @List.Forall_nil _ (λ e, P e.2)
            | e :: es' =>
                @List.Forall_cons _ (λ e, P e.2) e es'
                  (match e return P e.2 with
                   | (_, child) =>
                       Node_nested_ind P HFile HDir HNoRead HNoLstat child
                   end)
                  (entries es')
            end) es)
  | NoReadDir m e => HNoRead m e
  | NoLstat e => HNoLstat e
  end.

(** A visited node that [getAllStorage] returns: a directory whose names
    could be read and whose parent, by [path.Dir], is the root. *)
Definition listed (root : string) (v : string * Node) : bool :=
  match readError v.2, filepath.lstatInfo v.2 with
  | None, Some i => os.IsDir i && String.eqb (path.Dir v.1) root
  | _, _ => false
  end.

(** The warning [getAllStorage] logs for a visited node, if any. *)
Definition traverseWarning (v : string * Node) : option LogLine :=
  match readError v.2 with
  | Some e =>
      Some (mkLogLine level.Warn
              [("msg", VStr "unable to traverse WAL storage path");
               ("path", VStr v.1); ("err", VErr e)])
  | None => None
  end.

(** The warning [abandonedStorage] logs when the inspection of [d] fails. *)
Definition mtimeWarning (d : string) (e : error) : LogLine :=
  mkLogLine level.Warn
    [("msg", VStr "unable to find segment mtime of WAL");
     ("name", VStr d); ("err", VErr e)].

(** The line [abandonedStorage] logs for one directory of [all]. *)
Definition scanLine (dk : Disk) (managed : gmap string bool)
    (now : time.Time) (d : string) : LogLine :=
  if negb (lookupBool managed d) then
    match inspect dk d with
    | (_, Some e) => mtimeWarning d e
    | (mtime, None) =>
        mkLogLine level.Debug
          [("msg", VStr "abandoned WAL"); ("name", VStr d);
           ("mtime", VTime mtime); ("diff", VDur (time.Sub now mtime))]
    end
  else mkLogLine level.Debug [("msg", VStr "active WAL"); ("name", VStr d)].

(** What [getAllStorage] returns on a disk. *)
Definition allStorage (c : walCleaner) (dk : Disk) : list string :=
  (filter (listed (walDirectory c))
          (visits (walDirectory c) (treeAt dk (walDirectory c)))).*1.

(** The disk with another tree at every path, everything else alike. *)
Definition withTree (dk : Disk) (n : Node) : Disk :=
  mkDisk (λ _, n) (walOpen dk) (walSegments dk) (walClose dk) (statAt dk).

(** What [getAllStorage] logs on a disk. *)
Definition traverseWarnings (c : walCleaner) (dk : Disk) : list LogLine :=
  omap traverseWarning (visits (walDirectory c) (treeAt dk (walDirectory c))).

(** The line [CleanupStorage] logs for an abandoned directory. *)
Definition wouldDelete (a : string) : LogLine :=
  mkLogLine level.Info [("msg", VStr "would delete WAL"); ("name", VStr a)].

(** How many events the goroutine can still take part in once [Stop] has
    returned: used to bound the runs after [Stop]. *)
Definition remaining (rt : Runtime) : nat :=
  match task rt with
  | Exited => 0
  | Selecting => if time.full (ticker rt) then 3 else 1
  | InPass => if time.full (ticker rt) then 4 else 2
  end.

(** The passes that have begun plus the one a buffered tick can still
    start. *)
Definition passBudget (rt : Runtime) : nat :=
  passesBegun rt + (if time.full (ticker rt) then 1 else 0).

(** [Stop] has returned: the ticker is stopped and [done] is closed. *)
Definition stopped (rt : Runtime) : Prop :=
  time.running (ticker rt) = false ∧ done rt = true.

(** ** A WAL root with faults

    Under [/wal]: [empty-1], whose WAL has no segment; [gone-1], on which
    [Lstat] fails; [inst-1], managed and fresh; [locked-1], whose names
    cannot be read; the file [notes.txt]; [orphan-1], unmanaged and written
    10 hours ago; [young-1], unmanaged and written one hour ago. *)
Module Faulty.

Definition now : time.Time := Scenario.now.

Definition denied : error := LibError "permission denied".

Definition orphan : list (string * Node) :=
  [("wal", Dir (now - 10 * time.Hour)
             [("00000003", File (now - 10 * time.Hour))])].

Definition entries : list (string * Node) :=
  [("empty-1", Dir now [("wal", Dir now [])]);
   ("gone-1", NoLstat denied);
   ("inst-1", Scenario.storage "00000007" (now - 60 * time.Second));
   ("locked-1", NoReadDir now denied);
   ("notes.txt", File now);
   ("orphan-1", Dir (now - 10 * time.Hour) orphan);
   ("young-1", Scenario.storage "00000000" (now - 1 * time.Hour))].

Definition root : Node := Dir now entries.

Definition tree (p : string) : Node :=
  if String.eqb p "/wal" then root else NoLstat (LibError "no such file").

Definition segments (d : string) : result (Z * Z) :=
  if String.eqb d "/wal/empty-1/wal" then Ok (-1, -1)
  else if String.eqb d "/wal/inst-1/wal" then Ok (5, 7)
  else if String.eqb d "/wal/orphan-1/wal" then Ok (1, 3)
  else if String.eqb d "/wal/young-1/wal" then Ok (0, 0)
  else Err (LibError "no such directory").

Definition stat (p : string) : result os.FileInfo :=
  if String.eqb p "/wal/inst-1/wal/00000007"
  then Ok (os.mkFileInfo false (now - 60 * time.Second))
  else if String.eqb p "/wal/orphan-1/wal/00000003"
  then Ok (os.mkFileInfo false (now - 10 * time.Hour))
  else if String.eqb p "/wal/young-1/wal/00000000"
  then Ok (os.mkFileInfo false (now - 1 * time.Hour))
  else Err (LibError "no such file").

Definition theDisk : Disk :=
  mkDisk tree (λ _, None) segments (λ _, None) stat.

Definition theWorld : World := mkWorld theDisk now [] [].

Definition registry : Manager :=
  mkManager (<["a" := mkManagedInstance "/wal/inst-1"]> ∅).

Definition cleaner : walCleaner :=
  mkWalCleaner "/wal" registry (6 * time.Hour).

(** The same cleaner with [minAge] at exactly the age of [orphan-1]. *)
Definition cleaner10 : walCleaner :=
  mkWalCleaner "/wal" registry (10 * time.Hour).

(** A disk on which the WAL root itself cannot be read. *)
Definition noRootDisk : Disk :=
  mkDisk (λ _, NoLstat denied) (λ _, None) segments (λ _, None) stat.

Definition noRootWorld : World := mkWorld noRootDisk now [] [].

End Faulty.

(** ** Notions used for further properties *)

(** Whether a log line is at a level. *)
Definition atLevel (lvl : level.Level) (line : LogLine) : bool :=
  match lvl, line_level line with
  | level.Debug, level.Debug | level.Info, level.Info
  | level.Warn, level.Warn | level.Error, level.Error => true
  | _, _ => false
  end.

(** The lines a computation adds to the log of [w]. *)
Definition newLines {A : Type} (m : M A) (w : World) : list LogLine :=
  drop (length (logged w)) (logged (m w).2).

(** A directory whose names can be read. *)
Definition isReadableDir (n : Node) : bool :=
  match n with
  | Dir _ _ => true
  | _ => false
  end.


(** The passes that are running: one when the goroutine is inside
    [CleanupStorage], none otherwise. *)
Definition passesRunning (rt : Runtime) : nat :=
  match task rt with
  | InPass => 1
  | _ => 0
  end.

#[global] Instance event_eq_dec : EqDecision event.
Proof. solve_decision. Defined.

(** How often an event occurs in a run. *)
Definition occurrences (e : event) (es : list event) : nat :=
  length (filter (λ x, x = e) es).

(** An element that [path.Clean] keeps: not empty, not [.], without
    slash. *)
Definition keptElem (e : string) : Prop :=
  e ≠ "" ∧ e ≠ "." ∧ hasSlash e = false.

(** The elements [path.Clean] has kept so far, the last one first: [..]
    stays only at the start of a path that is not rooted. *)
Fixpoint keptOK (rooted : bool) (kept : list string) : Prop :=
  match kept with
  | [] => True
  | e :: k =>
      keptElem e
      ∧ (e = ".." → rooted = false ∧ match k with
                                      | [] => True
                                      | k0 :: _ => k0 = ".."
                                      end)
      ∧ keptOK rooted k
  end.

(** The faulty WAL root of [Faulty], configured with a slash at its end:
    the disk shows the same directory under [/wal/] as under [/wal]. *)
Module SlashRoot.

Definition theDisk : Disk := withTree Faulty.theDisk Faulty.root.

Definition theWorld : World := mkWorld theDisk Faulty.now [] [].

Definition cleaner : walCleaner :=
  mkWalCleaner "/wal/" Faulty.registry (6 * time.Hour).

(** The same cleaner with the root in clean form. *)
Definition cleanCleaner : walCleaner :=
  mkWalCleaner "/wal" Faulty.registry (6 * time.Hour).

End SlashRoot.

(** ** Package [tempoutils]: the testing server

    [NewServerWithRandomPort] and [Server.Stop].  The state [St] is that of
    the collector components, of the network and of the random source;
    [NewServer], whose steps are calls into the collector libraries, and
    [rand.Intn] are taken as given.  The context with its timeout of 30
    seconds that [Stop] passes on is not modelled. *)
Module tempoutils.

Section Server.

Variable St : Type.

(** A method [func(context.Context) error] of a component. *)
Definition action : Type := St → option error * St.

(** The [Server] with the shutdown methods of its three fields. *)
Record Server : Type := mkServer {
  receivers_ShutdownAll : action;
  pipelines_ShutdownProcessors : action;
  exporters_ShutdownAll : action
}.

(** The loop of [Stop] over [deps], with [firstErr] so far. *)
Fixpoint stopLoop (deps : list action) (firstErr : option error)
    (σ : St) : option error * St :=
  match deps with
  | [] => (firstErr, σ)
  | dep :: rest =>
      let '(err, σ') := dep σ in
      let firstErr' :=
        match err, firstErr with
        | Some e, None => Some e
        | _, _ => firstErr
        end in
      stopLoop rest firstErr' σ'
  end.

(** Stop stops the testing server. *)
Definition Stop (s : Server) : St → option error * St :=
  stopLoop [receivers_ShutdownAll s; pipelines_ShutdownProcessors s;
            exporters_ShutdownAll s] None.

(** [rand.Intn(n)] and [NewServer(addr, callback)]. *)
Variable Intn : Z → St → Z * St.
Variable NewServer : string → St → result Server * St.

(** The text [%w] prints for an error. *)
Definition errorText (e : option error) : string :=
  match e with
  | Some SkipDir => "skip this directory"
  | Some (LibError msg) | Some (Errorf msg) => msg
  | None => "%!w(<nil>)"
  end.

(** The loop of [NewServerWithRandomPort] with [n] iterations to go. *)
Fixpoint attempts (n : nat) (lastError : option error) (σ : St)
  : (option Server * string * option error) * St :=
  match n with
  | O =>
      ((None, "",
        Some (Errorf ("failed 5 times to create a server. last error: "
                      +:+ errorText lastError))), σ)
  | S n' =>
      let '(r, σ1) := Intn (65535 - 49152) σ in
      let port := r + 49152 in
      let listenAddr := "127.0.0.1:" +:+ pretty port in
      let '(res, σ2) := NewServer listenAddr σ1 in
      match res with
      | Err err => attempts n' (Some err) σ2
      | Ok srv => ((Some srv, listenAddr, None), σ2)
      end
  end.

(** NewServerWithRandomPort calls NewServer with a random port.  It will
    try up to five times before failing. *)
Definition NewServerWithRandomPort
  : St → (option Server * string * option error) * St :=
  attempts 5 None.

End Server.

End tempoutils.

(** A run of the testing server on the state of random numbers still to
    come: [Intn] takes the next one, [NewServer] fails on port 49153. *)
Module TestServer.

Definition Intn (n : Z) (σ : list Z) : Z * list Z :=
  match σ with
  | [] => (0, [])
  | r :: σ' => (r mod n, σ')
  end.

Definition quiet : tempoutils.action (list Z) := λ σ, (None, σ).

Definition failing (msg : string) : tempoutils.action (list Z) :=
  λ σ, (Some (LibError msg), 0 :: σ).

Definition server : tempoutils.Server (list Z) :=
  tempoutils.mkServer (list Z) quiet (failing "pipelines") (failing "exporters").

Definition NewServer (addr : string) (σ : list Z)
  : result (tempoutils.Server (list Z)) * list Z :=
  if String.eqb addr "127.0.0.1:49153"
  then (Err (LibError "address already in use"), σ)
  else (Ok server, σ).

End TestServer.

(** * Properties *)

(** ** Paths *)

Example Dir_child : path.Dir "/var/wal/inst-1" = "/var/wal".
Proof. reflexivity. Qed.

Example Dir_grandchild : path.Dir "/var/wal/inst-1/wal" = "/var/wal/inst-1".
Proof. reflexivity. Qed.

Example Dir_trailing_slash : path.Dir "/var/wal/" = "/var/wal".
Proof. reflexivity. Qed.

Example Dir_root : path.Dir "/" = "/".
Proof. reflexivity. Qed.

Example Dir_bare : path.Dir "inst-1" = ".".
Proof. reflexivity. Qed.

Example Clean_dots : path.Clean "/a/./b/../../c//d/" = "/c/d".
Proof. reflexivity. Qed.

Example Clean_updots : path.Clean "a/../../b" = "../b".
Proof. reflexivity. Qed.

Example Join_child : filepath.Join "/var/wal" "inst-1" = "/var/wal/inst-1".
Proof. reflexivity. Qed.

Example Join_after_slash : filepath.Join "/var/wal/" "inst-1" = "/var/wal/inst-1".
Proof. reflexivity. Qed.

Example SegmentName_3 :
  promwal.SegmentName "/wal/orphan-1/wal" 3 = "/wal/orphan-1/wal/00000003".
Proof. reflexivity. Qed.


Lemma append_cons (c : Ascii.ascii) (a b : string) :
  String c a +:+ b = String c (a +:+ b).
Proof. reflexivity. Qed.


Lemma SplitSlash_cons (s : string) : ∃ hd tl, path.SplitSlash s = hd :: tl.
Proof.
  induction s as [| c s (hd & tl & IH)]; cbn [path.SplitSlash]; eauto.
  destruct (isSlash c); eauto. rewrite IH. eauto.
Qed.

Lemma SplitSlash_app (a b : string) :
  path.SplitSlash (a +:+ "/" +:+ b) = path.SplitSlash a ++ path.SplitSlash b.
Proof.
  induction a as [| c a IH].
  - reflexivity.
  - rewrite append_cons. cbn [path.SplitSlash]. rewrite IH.
    destruct (isSlash c); [reflexivity |].
    destruct (SplitSlash_cons a) as (hd & tl & ->). reflexivity.
Qed.

Lemma SplitSlash_plain (s : string) :
  hasSlash s = false → path.SplitSlash s = [s].
Proof.
  induction s as [| c s IH]; cbn [path.SplitSlash hasSlash]; [reflexivity |].
  intros H. apply orb_false_iff in H as [-> Hs]. rewrite (IH Hs). reflexivity.
Qed.





Lemma cleanElem_plain (rooted : bool) (kept : list string) (name : string) :
  entryName name → path.cleanElem rooted kept name = name :: kept.
Proof.
  intros (H1 & H2 & H3 & _). unfold path.cleanElem.
  destruct (String.eqb_spec name ""); [done |].
  destruct (String.eqb_spec name "."); [done |].
  destruct (String.eqb_spec name ".."); [done |]. reflexivity.
Qed.


Lemma Clean_render (p : string) :
  path.Clean p = render (path.HasSlashPrefix p) (elems p).
Proof. reflexivity. Qed.







(** ** Time *)

(** The saturated difference is above an [int64] threshold only when the
    exact difference is. *)
Lemma Sub_gt (t u : time.Time) (m : time.Duration) :
  time.isDuration m → (time.Sub t u >? m) = true → t - u > m.
Proof.
  unfold time.isDuration, time.Sub. intros Hm. rewrite Z.gtb_gt.
  destruct (Z.ltb_spec (t - u) time.minDuration) as [Hlo | Hlo];
    [| destruct (Z.ltb_spec time.maxDuration (t - u)) as [Hhi | Hhi]];
    unfold time.minDuration, time.maxDuration in *;
    change (2 ^ 63) with 9223372036854775808 in *; lia.
Qed.

(** When the exact difference fits a [Duration], [Sub] is that difference. *)
Lemma Sub_exact (t u : time.Time) :
  time.isDuration (t - u) → time.Sub t u = t - u.
Proof.
  unfold time.isDuration, time.Sub. intros Hd.
  destruct (Z.ltb_spec (t - u) time.minDuration) as [Hlo | Hlo];
    [| destruct (Z.ltb_spec time.maxDuration (t - u)) as [Hhi | Hhi]];
    lia.
Qed.

(** ** The monad *)

Lemma bind_run {A B : Type} (m : M A) (f : A → M B) (w : World) :
  (m ≫= f) w = f (m w).1 (m w).2.
Proof. unfold mbind, M_bind. destruct (m w); reflexivity. Qed.

Lemma Log_run lvl kv w :
  Log lvl kv w = ((), withLogged w (logged w ++ [mkLogLine lvl kv])).
Proof. reflexivity. Qed.

Lemma removeFirst_head (x : string) (l : list string) :
  removeFirst x (x :: l) = l.
Proof. simpl. rewrite String.eqb_refl. reflexivity. Qed.

(** ** [getManagedStorage] *)

(** A directory is in the managed set exactly when some instance of the
    snapshot has it as storage directory. *)
Lemma getManagedStorage_true (instances : gmap string ManagedInstance)
    (d : string) :
  lookupBool (getManagedStorage instances) d = true
  ↔ ∃ k inst, instances !! k = Some inst ∧ StorageDirectory inst = d.
Proof.
  unfold getManagedStorage, lookupBool.
  revert d.
  apply (map_fold_weak_ind
           (λ (r : gmap string bool) (m : gmap string ManagedInstance),
              ∀ d, default false (r !! d) = true
                   ↔ ∃ k inst, m !! k = Some inst ∧ StorageDirectory inst = d)).
  - intros d. rewrite lookup_empty. simpl. split; [discriminate |].
    intros (k & inst & Hk & _). rewrite lookup_empty in Hk. discriminate.
  - intros i x m r Hi IH d.
    destruct (decide (StorageDirectory x = d)) as [Heq | Hne].
    + subst d. rewrite lookup_insert_eq. simpl. split; [| reflexivity].
      intros _. exists i, x. rewrite lookup_insert_eq. done.
    + rewrite lookup_insert_ne by done. rewrite IH. split.
      * intros (k & inst & Hk & Hd). exists k, inst. split; [| done].
        rewrite lookup_insert_ne; [done |]. intros ->. congruence.
      * intros (k & inst & Hk & Hd).
        destruct (decide (i = k)) as [-> | Hik].
        -- rewrite lookup_insert_eq in Hk. congruence.
        -- rewrite lookup_insert_ne in Hk by done. eauto.
Qed.

(** ** [lastWrittenTime] *)

(** The call leaves the world as it found it: nothing is logged, the disk
    is not written, and the handle it opened is closed again. *)
Lemma lastWrittenTime_world (storage : string) (w : World) :
  (lastWrittenTime storage w).2 = w.
Proof.
  unfold lastWrittenTime, defer.
  rewrite bind_run. unfold promwal.Open at 1 2.
  destruct (walOpen (disk w) (wal.SubDirectory storage)) eqn:Hopen;
    simpl; [reflexivity |].
  assert (Hback : ∀ w0 : World, disk w0 = disk w → logged w0 = logged w →
            clock w0 = clock w →
            openWALs w0 = wal.SubDirectory storage :: openWALs w →
            withOpenWALs w0 (removeFirst (wal.SubDirectory storage)
                                         (openWALs w0)) = w).
  { intros w0 Hd Hl Hc Ho. unfold withOpenWALs.
    rewrite Hd, Hl, Hc, Ho, removeFirst_head. destruct w; reflexivity. }
  unfold mbind, M_bind, mret, M_ret, promwal.Segments, promwal.Close, Stat.
  simpl.
  destruct (walSegments _ _) as [[first last] | err]; simpl.
  - destruct (last =? -1); simpl.
    + apply Hback; reflexivity.
    + destruct (statAt (disk w) _); simpl; apply Hback; reflexivity.
  - apply Hback; reflexivity.
Qed.

(** What it returns depends on the disk only. *)
Lemma lastWrittenTime_disk (storage : string) (w w' : World) :
  disk w = disk w' →
  (lastWrittenTime storage w).1 = (lastWrittenTime storage w').1.
Proof.
  destruct w as [d cl lg ow], w' as [d' cl' lg' ow']. simpl. intros <-.
  unfold lastWrittenTime, defer, mbind, M_bind, mret, M_ret, promwal.Open,
    promwal.Segments, promwal.Close, Stat.
  simpl.
  destruct (walOpen d _); simpl; [reflexivity |].
  destruct (walSegments d _) as [[first last] | err]; simpl;
    [| reflexivity].
  destruct (last =? -1); simpl; [reflexivity |].
  destruct (statAt d _); reflexivity.
Qed.

(** ** [filepath.Walk] with a function that never returns an error *)

Section WalkNil.

Context {St : Type} (walkFn : filepath.WalkFunc St).
Hypothesis walkFn_nil : ∀ p info err s, (walkFn p info err s).2 = None.

(** The walk calls the function once for every node of the tree, in order,
    and returns nil: it is never cut short. *)
Lemma walk_visits (n : Node) :
  ∀ p s, filepath.walk walkFn p n s = (foldl (call walkFn) s (visits p n), None).
Proof.
  induction n as [m | m es IH | m e | e] using Node_nested_ind; intros p s.
  - simpl. unfold call. simpl.
    specialize (walkFn_nil p (Some (os.mkFileInfo false m)) None s).
    destruct (walkFn _ _ _ _); simpl in *; congruence.
  - simpl. unfold call at 2. simpl.
    specialize (walkFn_nil p (Some (os.mkFileInfo true m)) None s).
    destruct (walkFn p _ None s) as [s1 err1]. simpl in *. subst err1.
    generalize s1. clear s s1.
    induction IH as [| [name child] es' Hchild _ IHes]; intros s.
    + reflexivity.
    + simpl in Hchild. rewrite Hchild, foldl_app. apply IHes.
  - simpl. unfold call. simpl.
    specialize (walkFn_nil p (Some (os.mkFileInfo true m)) (Some e) s).
    destruct (walkFn _ _ _ _); simpl in *; congruence.
  - simpl. unfold call. simpl.
    specialize (walkFn_nil p None (Some e) s).
    destruct (walkFn _ _ _ _); simpl in *; congruence.
Qed.

Lemma Walk_visits (root : string) (n : Node) (s : St) :
  filepath.Walk root n walkFn s = (foldl (call walkFn) s (visits root n), None).
Proof. unfold filepath.Walk. rewrite walk_visits. reflexivity. Qed.

End WalkNil.

(** ** [getAllStorage] *)

Lemma withLogged_twice (w : World) (l1 l2 : list LogLine) :
  withLogged (withLogged w l1) l2 = withLogged w l2.
Proof. reflexivity. Qed.

Lemma withLogged_same (w : World) : withLogged w (logged w) = w.
Proof. destruct w; reflexivity. Qed.

Lemma getAllStorageFn_nil (c : walCleaner) p info err s :
  (getAllStorageFn c p info err s).2 = None.
Proof.
  unfold getAllStorageFn. destruct s as [out w].
  destruct err; [reflexivity |].
  destruct info as [i |]; [| reflexivity].
  destruct (os.IsDir i && String.eqb (path.Dir p) (walDirectory c));
    reflexivity.
Qed.

(** One call: a listed node is appended to [out], a warning is logged for
    an unreadable one. *)
Lemma getAllStorageFn_call (c : walCleaner) out w (v : string * Node) :
  call (getAllStorageFn c) (out, w) v
  = (out ++ (if listed (walDirectory c) v then [v.1] else []),
     withLogged w (logged w ++ option_list (traverseWarning v))).
Proof.
  destruct v as [p n].
  unfold call, getAllStorageFn, listed, traverseWarning. simpl.
  destruct (readError n) as [e |]; simpl.
  - rewrite app_nil_r. reflexivity.
  - rewrite app_nil_r, withLogged_same.
    destruct (filepath.lstatInfo n) as [i |]; simpl.
    + destruct (os.IsDir i && String.eqb (path.Dir p) (walDirectory c));
        simpl; rewrite ?app_nil_r; reflexivity.
    + rewrite app_nil_r. reflexivity.
Qed.

Lemma omap_cons_list {A B : Type} (f : A → option B) (x : A) (l : list A) :
  omap f (x :: l) = option_list (f x) ++ omap f l.
Proof. cbn. destruct (f x); reflexivity. Qed.

Lemma filter_cons_bool {A : Type} (f : A → bool) (x : A) (l : list A) :
  filter f (x :: l) = (if f x then [x] else []) ++ filter f l.
Proof.
  rewrite filter_cons. destruct (f x); simpl; reflexivity.
Qed.

(** The calls over the visited nodes. *)
Lemma getAllStorageFn_calls (c : walCleaner) (l : list (string * Node)) :
  ∀ out w,
    foldl (call (getAllStorageFn c)) (out, w) l
    = (out ++ (filter (listed (walDirectory c)) l).*1,
       withLogged w (logged w ++ omap traverseWarning l)).
Proof.
  induction l as [| v l IH]; intros out w.
  - simpl. rewrite !app_nil_r, withLogged_same. reflexivity.
  - cbn [foldl].
    rewrite getAllStorageFn_call, IH, filter_cons_bool, omap_cons_list.
    cbn [logged withLogged]. rewrite withLogged_twice, fmap_app.
    rewrite <- !app_assoc.
    destruct (listed (walDirectory c) v); reflexivity.
Qed.

(** [getAllStorage] returns the listed nodes of the whole tree under the
    root, in the order of the walk, and logs one warning for each node that
    could not be read. *)
Lemma getAllStorage_run (c : walCleaner) (w : World) :
  let vs := visits (walDirectory c) (treeAt (disk w) (walDirectory c)) in
  getAllStorage c w
  = ((filter (listed (walDirectory c)) vs).*1,
     withLogged w (logged w ++ omap traverseWarning vs)).
Proof.
  unfold getAllStorage.
  rewrite (Walk_visits _ (getAllStorageFn_nil c)), getAllStorageFn_calls.
  reflexivity.
Qed.

(** ** [abandonedStorage] *)

Lemma lastWrittenTime_run (storage : string) (w : World) :
  lastWrittenTime storage w = (inspect (disk w) storage, w).
Proof.
  rewrite (surjective_pairing (lastWrittenTime storage w)),
    lastWrittenTime_world.
  unfold inspect.
  rewrite (lastWrittenTime_disk storage w (mkWorld (disk w) 0 [] []));
    reflexivity.
Qed.

Lemma abandonedLoop_run (c : walCleaner) (managed : gmap string bool)
    (now : time.Time) (all : list string) :
  ∀ out w,
    abandonedLoop c managed now all out w
    = (out ++ filter (eligible c (disk w) managed now) all,
       withLogged w (logged w ++ (scanLine (disk w) managed now <$> all))).
Proof.
  induction all as [| d rest IH]; intros out w.
  - simpl. rewrite !app_nil_r, withLogged_same. reflexivity.
  - cbn [abandonedLoop]. rewrite filter_cons_bool, fmap_cons.
    unfold eligible at 1, scanLine at 1.
    destruct (negb (lookupBool managed d)); cbn [andb].
    + rewrite bind_run, lastWrittenTime_run. cbn [fst snd].
      destruct (inspect (disk w) d) as [mtime [e |]].
      * rewrite bind_run, Log_run, IH. cbn [fst snd disk logged withLogged].
        rewrite withLogged_twice, <- !app_assoc. reflexivity.
      * rewrite bind_run, Log_run, IH. cbn [fst snd disk logged withLogged].
        rewrite withLogged_twice.
        destruct (time.Sub now mtime >? minAge c);
          rewrite <- !app_assoc; reflexivity.
    + rewrite bind_run, Log_run, IH. cbn [fst snd disk logged withLogged].
      rewrite withLogged_twice, <- !app_assoc. reflexivity.
Qed.

Lemma getAllStorage_eq (c : walCleaner) (w : World) :
  getAllStorage c w
  = (allStorage c (disk w),
     withLogged w (logged w ++ traverseWarnings c (disk w))).
Proof. apply getAllStorage_run. Qed.

Lemma abandonedStorage_run (c : walCleaner)
    (instances : gmap string ManagedInstance) (now : time.Time) (w : World) :
  let managed := getManagedStorage instances in
  abandonedStorage c instances now w
  = (filter (eligible c (disk w) managed now) (allStorage c (disk w)),
     withLogged w
       (logged w ++ traverseWarnings c (disk w)
        ++ (scanLine (disk w) managed now <$> allStorage c (disk w)))).
Proof.
  intros managed. unfold abandonedStorage.
  rewrite bind_run, getAllStorage_eq. cbn [fst snd].
  rewrite abandonedLoop_run. cbn [disk logged withLogged app].
  rewrite withLogged_twice, <- app_assoc. reflexivity.
Qed.

Lemma forRange_Log (f : string → LogLine) (l : list string) :
  ∀ w,
    forRange l (λ a, Log (line_level (f a)) (line_keyvals (f a))) w
    = ((), withLogged w (logged w ++ (f <$> l))).
Proof.
  induction l as [| a l IH]; intros w.
  - simpl. rewrite app_nil_r, withLogged_same. reflexivity.
  - cbn [forRange]. rewrite bind_run, Log_run, IH, fmap_cons.
    cbn [fst snd logged withLogged]. rewrite withLogged_twice, <- app_assoc.
    destruct (f a); reflexivity.
Qed.

(** One pass: nothing but log lines is added to the world, and the result is
    nil. *)
Lemma CleanupStorage_run (c : walCleaner) (w : World) :
  let managed := getManagedStorage (ListInstances (instanceManager c)) in
  let abandoned :=
    filter (eligible c (disk w) managed (clock w)) (allStorage c (disk w)) in
  CleanupStorage c w
  = (None,
     withLogged w
       (logged w ++ traverseWarnings c (disk w)
        ++ (scanLine (disk w) managed (clock w) <$> allStorage c (disk w))
        ++ (wouldDelete <$> abandoned))).
Proof.
  intros managed abandoned. unfold CleanupStorage.
  rewrite bind_run. unfold Now at 1 2. cbn [fst snd].
  rewrite bind_run, abandonedStorage_run. cbn [fst snd].
  rewrite bind_run.
  rewrite (forRange_Log wouldDelete). cbn [fst snd disk logged withLogged].
  unfold mret, M_ret. rewrite withLogged_twice, <- !app_assoc. reflexivity.
Qed.

(** [d] is returned by [abandonedStorage] exactly when it is listed and
    passes the test. *)
Lemma abandonedStorage_elem (c : walCleaner)
    (instances : gmap string ManagedInstance) (now : time.Time) (w : World)
    (d : string) :
  d ∈ (abandonedStorage c instances now w).1
  ↔ d ∈ (getAllStorage c w).1
    ∧ eligible c (disk w) (getManagedStorage instances) now d = true.
Proof.
  rewrite abandonedStorage_run, getAllStorage_eq. cbn [fst].
  rewrite list_elem_of_filter, Is_true_true. tauto.
Qed.

Lemma eligible_true (c : walCleaner) (dk : Disk) (managed : gmap string bool)
    (now : time.Time) (d : string) :
  eligible c dk managed now d = true
  ↔ lookupBool managed d = false
    ∧ ∃ mtime, inspect dk d = (mtime, None)
               ∧ (time.Sub now mtime >? minAge c) = true.
Proof.
  unfold eligible. rewrite andb_true_iff, negb_true_iff.
  destruct (inspect dk d) as [mtime [e |]]; split.
  - intros [_ ?]. discriminate.
  - intros (_ & m & Heq & _). discriminate.
  - intros [? ?]. eauto.
  - intros (? & m & Heq & ?). inversion Heq. subst. auto.
Qed.

Lemma inspect_run (storage : string) (w : World) :
  (lastWrittenTime storage w).1 = inspect (disk w) storage.
Proof. rewrite lastWrittenTime_run. reflexivity. Qed.

(** ** One reconciliation pass *)

(** C1 (the specification and the doc comments of the package say the
    directory is deleted; the code does not delete).  On the end-to-end
    scenario of the specification (root with [inst-1], [inst-2], [orphan-1]; registry with
    [inst-1] and [inst-2]; newest segment of [orphan-1] written 10 hours
    before now; [minAge] of 6 hours) [CleanupStorage] returns nil and finds
    exactly [orphan-1] abandoned, but it only logs "would delete WAL" for
    it: the disk after the pass is the disk before it and [orphan-1] is
    still listed. *)
Theorem CleanupStorage_scenario_only_logs :
  let r := CleanupStorage Scenario.cleaner Scenario.theWorld in
  r.1 = None
  ∧ (abandonedStorage Scenario.cleaner (ListInstances Scenario.registry)
       (clock Scenario.theWorld) Scenario.theWorld).1 = ["/wal/orphan-1"]
  ∧ last (logged r.2) = Some (wouldDelete "/wal/orphan-1")
  ∧ disk r.2 = disk Scenario.theWorld
  ∧ (getAllStorage Scenario.cleaner r.2).1
    = ["/wal/inst-1"; "/wal/inst-2"; "/wal/orphan-1"].
Proof.
  cbv zeta. split; [| split; [| split; [| split]]].
  - rewrite CleanupStorage_run. reflexivity.
  - vm_compute. reflexivity.
  - vm_compute. reflexivity.
  - rewrite CleanupStorage_run. reflexivity.
  - vm_compute. reflexivity.
Qed.

(** C2.  Every path returned by [abandonedStorage] is absent from the
    managed set derived from the instance snapshot (no instance has it as
    storage directory) and its most recent segment is older than [minAge]
    at the time [now] of the pass: [lastWrittenTime] succeeds on it with a
    time [mtime] such that [now - mtime > minAge].  This holds for every
    directory set on disk, so a managed path is never returned. *)
Theorem abandonedStorage_sound (c : walCleaner)
    (instances : gmap string ManagedInstance) (now : time.Time) (w : World)
    (d : string) :
  time.isDuration (minAge c) →
  d ∈ (abandonedStorage c instances now w).1 →
  lookupBool (getManagedStorage instances) d = false
  ∧ (∀ k inst, instances !! k = Some inst → StorageDirectory inst ≠ d)
  ∧ ∃ mtime, (lastWrittenTime d w).1 = (mtime, None)
             ∧ now - mtime > minAge c.
Proof.
  intros Hdur Hin.
  apply abandonedStorage_elem in Hin as [_ Hel].
  apply eligible_true in Hel as (Hun & mtime & Hins & Hgt).
  split; [exact Hun |]. split.
  - intros k inst Hk Hd.
    assert (lookupBool (getManagedStorage instances) d = true) as Ht
      by (apply getManagedStorage_true; eauto).
    congruence.
  - exists mtime. rewrite inspect_run. split; [exact Hins |].
    apply Sub_gt; assumption.
Qed.

Lemma abandonedStorage_sound_witness :
  lookupBool (getManagedStorage (ListInstances Scenario.registry))
    "/wal/orphan-1" = false
  ∧ (∀ k inst, ListInstances Scenario.registry !! k = Some inst →
               StorageDirectory inst ≠ "/wal/orphan-1")
  ∧ ∃ mtime, (lastWrittenTime "/wal/orphan-1" Scenario.theWorld).1
             = (mtime, None)
             ∧ Scenario.now - mtime > minAge Scenario.cleaner.
Proof.
  apply (abandonedStorage_sound Scenario.cleaner
           (ListInstances Scenario.registry) Scenario.now Scenario.theWorld
           "/wal/orphan-1").
  - split; vm_compute; discriminate.
  - apply (bool_decide_unpack _). vm_compute. exact I.
Defined.

(** C3.  A directory whose last-write age is at most [minAge]
    ([now - mtime <= minAge], the threshold included) is not returned: the
    test is the strict [diff > minAge].  (This holds whether or not the
    directory is managed.) *)
Theorem abandonedStorage_threshold (c : walCleaner)
    (instances : gmap string ManagedInstance) (now : time.Time) (w : World)
    (d : string) (mtime : time.Time) :
  time.isDuration (minAge c) →
  (lastWrittenTime d w).1 = (mtime, None) →
  now - mtime <= minAge c →
  d ∉ (abandonedStorage c instances now w).1.
Proof.
  intros Hdur Hlast Hage Hin.
  apply abandonedStorage_elem in Hin as [_ Hel].
  apply eligible_true in Hel as (_ & mtime' & Hins & Hgt).
  rewrite inspect_run in Hlast. rewrite Hlast in Hins.
  inversion Hins. subst mtime'.
  apply Sub_gt in Hgt; [lia | assumption].
Qed.

Lemma abandonedStorage_threshold_witness :
  "/wal/orphan-1"
  ∉ (abandonedStorage Faulty.cleaner10 (ListInstances Faulty.registry)
       Faulty.now Faulty.theWorld).1.
Proof.
  apply (abandonedStorage_threshold Faulty.cleaner10
           (ListInstances Faulty.registry) Faulty.now Faulty.theWorld
           "/wal/orphan-1" (Faulty.now - 10 * time.Hour)).
  - split; vm_compute; discriminate.
  - vm_compute. reflexivity.
  - vm_compute. discriminate.
Defined.

(** ** Failed inspections *)

Lemma lastWrittenTime_result (storage : string) (w : World) :
  let walDir := wal.SubDirectory storage in
  (lastWrittenTime storage w).1
  = match walOpen (disk w) walDir with
    | Some err => (time.zero, Some err)
    | None =>
        match walSegments (disk w) walDir with
        | Err err => (time.zero, Some err)
        | Ok (_, last) =>
            if last =? -1 then
              (time.zero,
               Some (Errorf ("unable to determine most recent segment for "
                             +:+ walDir)))
            else
              match statAt (disk w) (promwal.SegmentName walDir last) with
              | Err err => (time.zero, Some err)
              | Ok segmentFile => (os.ModTime segmentFile, None)
              end
        end
    end.
Proof.
  destruct w as [d cl lg ow].
  unfold lastWrittenTime, defer, mbind, M_bind, mret, M_ret, promwal.Open,
    promwal.Segments, promwal.Close, Stat.
  simpl.
  destruct (walOpen d _); simpl; [reflexivity |].
  destruct (walSegments d _) as [[first last] | err]; simpl;
    [| reflexivity].
  destruct (last =? -1); simpl; [reflexivity |].
  destruct (statAt d _); reflexivity.
Qed.

Lemma abandonedStorage_logged (c : walCleaner)
    (instances : gmap string ManagedInstance) (now : time.Time) (w : World) :
  logged (abandonedStorage c instances now w).2
  = logged w ++ traverseWarnings c (disk w)
    ++ (scanLine (disk w) (getManagedStorage instances) now
          <$> allStorage c (disk w)).
Proof. rewrite abandonedStorage_run. reflexivity. Qed.

Lemma failed_inspection_skipped (c : walCleaner)
    (instances : gmap string ManagedInstance) (now : time.Time) (w : World)
    (d : string) (t : time.Time) (e : error) :
  (lastWrittenTime d w).1 = (t, Some e) →
  (d ∉ (abandonedStorage c instances now w).1)
  ∧ (d ∈ (getAllStorage c w).1 →
     lookupBool (getManagedStorage instances) d = false →
     mtimeWarning d e ∈ logged (abandonedStorage c instances now w).2).
Proof.
  rewrite inspect_run. intros Hins. split.
  - intros Hin. apply abandonedStorage_elem in Hin as [_ Hel].
    apply eligible_true in Hel as (_ & m & Hm & _). congruence.
  - rewrite getAllStorage_eq, abandonedStorage_logged. cbn [fst].
    intros Hall Hun. rewrite !elem_of_app. right. right.
    apply list_elem_of_fmap. exists d. split; [| exact Hall].
    unfold scanLine. rewrite Hun, Hins. reflexivity.
Qed.

(** C4.  When the WAL of a storage directory opens and has no segment
    ([Segments] reports [-1] as last index), [lastWrittenTime] returns a
    non-nil error of its own making (with the zero time beside it, as Go
    functions do), and [abandonedStorage] does not return the directory,
    whatever [now] and [minAge] are.  More generally, whenever
    [lastWrittenTime] fails on a directory, the directory is not returned,
    and if it is listed and unmanaged the warning is logged. *)
Theorem no_segments_never_abandoned (c : walCleaner)
    (instances : gmap string ManagedInstance) (now : time.Time) (w : World)
    (d : string) :
  let walDir := wal.SubDirectory d in
  (walOpen (disk w) walDir = None →
   (∃ first, walSegments (disk w) walDir = Ok (first, -1)) →
   (lastWrittenTime d w).1
   = (time.zero,
      Some (Errorf ("unable to determine most recent segment for "
                    +:+ walDir)))
   ∧ d ∉ (abandonedStorage c instances now w).1)
  ∧ (∀ t e, (lastWrittenTime d w).1 = (t, Some e) →
       (d ∉ (abandonedStorage c instances now w).1)
       ∧ (d ∈ (getAllStorage c w).1 →
          lookupBool (getManagedStorage instances) d = false →
          mtimeWarning d e
          ∈ logged (abandonedStorage c instances now w).2)).
Proof.
  intros walDir. split.
  - intros Hopen [first Hseg].
    assert ((lastWrittenTime d w).1
            = (time.zero,
               Some (Errorf ("unable to determine most recent segment for "
                             +:+ walDir)))) as Hres.
    { rewrite lastWrittenTime_result. fold walDir.
      rewrite Hopen, Hseg. reflexivity. }
    split; [exact Hres |].
    eapply failed_inspection_skipped. exact Hres.
  - intros t e. apply failed_inspection_skipped.
Qed.

Lemma no_segments_never_abandoned_witness :
  ((lastWrittenTime "/wal/empty-1" Faulty.theWorld).1
   = (time.zero,
      Some (Errorf ("unable to determine most recent segment for "
                    +:+ wal.SubDirectory "/wal/empty-1")))
   ∧ "/wal/empty-1"
     ∉ (abandonedStorage Faulty.cleaner (ListInstances Faulty.registry)
          Faulty.now Faulty.theWorld).1)
  ∧ mtimeWarning "/wal/empty-1"
      (Errorf ("unable to determine most recent segment for "
               +:+ wal.SubDirectory "/wal/empty-1"))
    ∈ logged (abandonedStorage Faulty.cleaner (ListInstances Faulty.registry)
                Faulty.now Faulty.theWorld).2.
Proof.
  pose proof (no_segments_never_abandoned Faulty.cleaner
                (ListInstances Faulty.registry) Faulty.now Faulty.theWorld
                "/wal/empty-1") as [Hnone Hany].
  split.
  - apply Hnone.
    + vm_compute. reflexivity.
    + exists (-1). vm_compute. reflexivity.
  - apply (Hany time.zero).
    + vm_compute. reflexivity.
    + apply (bool_decide_unpack _). vm_compute. exact I.
    + vm_compute. reflexivity.
Defined.

(** C8.  When the WAL handle opens, it is held while the segments are
    listed and the file is looked up, and [Close] runs before the function
    returns, whichever return is taken (listing error, no segment, [Stat]
    error, success): the set of open handles after the call is the one
    before it, and the disk is the disk before the call. *)
Theorem lastWrittenTime_releases_handle (storage : string) (w : World) :
  let walDir := wal.SubDirectory storage in
  let held := withOpenWALs w (walDir :: openWALs w) in
  walOpen (disk w) walDir = None →
  promwal.Open walDir w = (Ok (promwal.mkWAL walDir), held)
  ∧ (lastWrittenTime storage w).2
    = (promwal.Close (promwal.mkWAL walDir) held).2
  ∧ openWALs (lastWrittenTime storage w).2 = openWALs w
  ∧ disk (lastWrittenTime storage w).2 = disk w
  ∧ (lastWrittenTime storage w).1
    = match walSegments (disk w) walDir with
      | Err err => (time.zero, Some err)
      | Ok (_, last) =>
          if last =? -1 then
            (time.zero,
             Some (Errorf ("unable to determine most recent segment for "
                           +:+ walDir)))
          else
            match statAt (disk w) (promwal.SegmentName walDir last) with
            | Err err => (time.zero, Some err)
            | Ok segmentFile => (os.ModTime segmentFile, None)
            end
      end.
Proof.
  intros walDir held Hopen.
  split; [| split; [| split; [| split]]].
  - unfold promwal.Open. rewrite Hopen. reflexivity.
  - rewrite lastWrittenTime_world. unfold promwal.Close, held.
    cbn [snd promwal.dir openWALs withOpenWALs].
    rewrite removeFirst_head. destruct w; reflexivity.
  - rewrite lastWrittenTime_world. reflexivity.
  - rewrite lastWrittenTime_world. reflexivity.
  - rewrite lastWrittenTime_result. fold walDir. rewrite Hopen. reflexivity.
Qed.

Lemma lastWrittenTime_releases_handle_witness :
  openWALs (lastWrittenTime "/wal/orphan-1" Scenario.theWorld).2
  = openWALs Scenario.theWorld
  ∧ (lastWrittenTime "/wal/orphan-1" Scenario.theWorld).1
    = (Scenario.now - 10 * time.Hour, None).
Proof.
  pose proof (lastWrittenTime_releases_handle "/wal/orphan-1"
                Scenario.theWorld) as H.
  cbv zeta in H.
  destruct H as (_ & _ & Hopen & _ & Hres); [vm_compute; reflexivity |].
  split; [exact Hopen |].
  rewrite Hres. vm_compute. reflexivity.
Defined.

(** ** The scan of the WAL root *)

Lemma visits_head (p : string) (n : Node) : (p, n) ∈ visits p n.
Proof. destruct n; simpl; apply list_elem_of_here. Qed.


Lemma allStorage_elem (c : walCleaner) (dk : Disk) (d : string) :
  d ∈ allStorage c dk
  ↔ ∃ n, (d, n) ∈ visits (walDirectory c) (treeAt dk (walDirectory c))
         ∧ listed (walDirectory c) (d, n) = true.
Proof.
  unfold allStorage. rewrite list_elem_of_fmap. split.
  - intros ([d' n] & -> & Hin). apply list_elem_of_filter in Hin as [Hl Hin].
    exists n. split; [exact Hin |]. apply Is_true_true. exact Hl.
  - intros (n & Hin & Hl). exists (d, n). split; [reflexivity |].
    apply list_elem_of_filter. split; [| exact Hin].
    apply Is_true_true. exact Hl.
Qed.

Lemma traverseWarnings_elem (c : walCleaner) (dk : Disk)
    (v : string * Node) (line : LogLine) :
  v ∈ visits (walDirectory c) (treeAt dk (walDirectory c)) →
  traverseWarning v = Some line →
  line ∈ traverseWarnings c dk.
Proof.
  intros Hin Hline. unfold traverseWarnings.
  apply list_elem_of_omap. exists v. split; assumption.
Qed.






(** The root is compared as it was given: when [walDirectory] is not in
    clean form (here with a slash at the end), no path built by the walk has
    it as parent and nothing is listed. *)
Remark getAllStorage_unclean_root :
  (getAllStorage (mkWalCleaner "/wal/" Scenario.registry (6 * time.Hour))
     (mkWorld (withTree Scenario.theDisk Scenario.root) Scenario.now [] [])).1
  = [].
Proof. vm_compute. reflexivity. Qed.

(** C6, where the code fails the specification.  The WAL root of [Faulty]
    is configured as [/wal/].  The scan walks the whole tree and logs the
    warning for the entry [gone-1] that cannot be read, but it returns no
    directory at all: the readable directories [empty-1], [inst-1],
    [orphan-1] and [young-1] are left out, and [orphan-1] is not found
    abandoned.  On the same disk the root [/wal] gives the four directories
    and [orphan-1] abandoned. *)
Theorem getAllStorage_slash_root_lists_nothing :
  walDirectory SlashRoot.cleaner = "/wal/"
  ∧ treeAt (disk SlashRoot.theWorld) "/wal/" = Dir Faulty.now Faulty.entries
  ∧ Faulty.entries !! 1%nat = Some ("gone-1", NoLstat Faulty.denied)
  ∧ Faulty.entries !! 5%nat
    = Some ("orphan-1", Dir (Faulty.now - 10 * time.Hour) Faulty.orphan)
  ∧ mkLogLine level.Warn
      [("msg", VStr "unable to traverse WAL storage path");
       ("path", VStr "/wal/gone-1"); ("err", VErr Faulty.denied)]
    ∈ logged (getAllStorage SlashRoot.cleaner SlashRoot.theWorld).2
  ∧ (getAllStorage SlashRoot.cleaner SlashRoot.theWorld).1 = []
  ∧ (abandonedStorage SlashRoot.cleaner (ListInstances Faulty.registry)
       Faulty.now SlashRoot.theWorld).1 = []
  ∧ (getAllStorage SlashRoot.cleanCleaner SlashRoot.theWorld).1
    = ["/wal/empty-1"; "/wal/inst-1"; "/wal/orphan-1"; "/wal/young-1"]
  ∧ (abandonedStorage SlashRoot.cleanCleaner (ListInstances Faulty.registry)
       Faulty.now SlashRoot.theWorld).1
    = ["/wal/orphan-1"].
Proof.
  split; [reflexivity |]. split; [reflexivity |].
  split; [reflexivity |]. split; [reflexivity |].
  split.
  { rewrite getAllStorage_run. cbn [snd logged withLogged].
    apply elem_of_app. right.
    apply (list_elem_of_omap traverseWarning).
    exists ("/wal/gone-1", NoLstat Faulty.denied). split; [| reflexivity].
    vm_compute. apply list_elem_of_further, list_elem_of_further,
      list_elem_of_further, list_elem_of_here. }
  repeat split; vm_compute; reflexivity.
Qed.



(** ** Errors of a whole pass *)

Lemma CleanupStorage_logged (c : walCleaner) (w : World) :
  let managed := getManagedStorage (ListInstances (instanceManager c)) in
  logged (CleanupStorage c w).2
  = logged w ++ traverseWarnings c (disk w)
    ++ (scanLine (disk w) managed (clock w) <$> allStorage c (disk w))
    ++ (wouldDelete
          <$> filter (eligible c (disk w) managed (clock w))
                (allStorage c (disk w))).
Proof. intros managed. rewrite CleanupStorage_run. reflexivity. Qed.

(** C5, where the specification fails: on a disk where [Lstat] fails on the
    WAL root itself, [CleanupStorage] still returns nil. *)
Lemma CleanupStorage_root_unreadable_counterexample :
  treeAt (disk Faulty.noRootWorld) (walDirectory Faulty.cleaner)
  = NoLstat Faulty.denied
  ∧ ¬ ∃ e, (CleanupStorage Faulty.cleaner Faulty.noRootWorld).1 = Some e.
Proof.
  split; [reflexivity |].
  intros [e He]. rewrite CleanupStorage_run in He. discriminate.
Qed.

(** C5, as the code has it.  No failure met by a pass is returned:
    [CleanupStorage] returns nil in every world.  When the WAL root itself
    cannot be read, a warning is logged for it and no directory is listed.
    A failure on any single node of the tree is logged as a warning, and a
    failed inspection of a listed, unmanaged directory is logged as a
    warning; neither is returned. *)
Theorem CleanupStorage_absorbs_failures (c : walCleaner) (w : World) :
  let root := walDirectory c in
  let managed := getManagedStorage (ListInstances (instanceManager c)) in
  (CleanupStorage c w).1 = None
  ∧ (∀ e, readError (treeAt (disk w) root) = Some e →
       (getAllStorage c w).1 = []
       ∧ mkLogLine level.Warn
           [("msg", VStr "unable to traverse WAL storage path");
            ("path", VStr root); ("err", VErr e)]
         ∈ logged (CleanupStorage c w).2)
  ∧ (∀ v e, v ∈ visits root (treeAt (disk w) root) →
       readError v.2 = Some e →
       mkLogLine level.Warn
         [("msg", VStr "unable to traverse WAL storage path");
          ("path", VStr v.1); ("err", VErr e)]
       ∈ logged (CleanupStorage c w).2)
  ∧ (∀ d t e, d ∈ (getAllStorage c w).1 →
       lookupBool managed d = false →
       (lastWrittenTime d w).1 = (t, Some e) →
       mtimeWarning d e ∈ logged (CleanupStorage c w).2).
Proof.
  intros root managed.
  assert (∀ v e, v ∈ visits root (treeAt (disk w) root) →
            readError v.2 = Some e →
            mkLogLine level.Warn
              [("msg", VStr "unable to traverse WAL storage path");
               ("path", VStr v.1); ("err", VErr e)]
            ∈ logged (CleanupStorage c w).2) as Hnode.
  { intros v e Hin Herr. rewrite CleanupStorage_logged.
    rewrite !elem_of_app. right. left.
    apply (traverseWarnings_elem c (disk w) v); [exact Hin |].
    unfold traverseWarning. rewrite Herr. reflexivity. }
  split; [| split; [| split]].
  - rewrite CleanupStorage_run. reflexivity.
  - intros e Herr. split.
    + rewrite getAllStorage_eq. cbn [fst]. unfold allStorage. fold root.
      destruct (treeAt (disk w) root); try discriminate; reflexivity.
    + apply (Hnode (root, treeAt (disk w) root) e);
        [apply visits_head | exact Herr].
  - exact Hnode.
  - intros d t e Hall Hun Hlast. rewrite CleanupStorage_logged.
    rewrite !elem_of_app. right. right. left.
    rewrite getAllStorage_eq in Hall. cbn [fst] in Hall.
    apply list_elem_of_fmap. exists d. split; [| exact Hall].
    rewrite inspect_run in Hlast.
    unfold scanLine. fold managed. rewrite Hun, Hlast. reflexivity.
Qed.

Lemma CleanupStorage_absorbs_failures_witness :
  ((getAllStorage Faulty.cleaner Faulty.noRootWorld).1 = []
   ∧ mkLogLine level.Warn
       [("msg", VStr "unable to traverse WAL storage path");
        ("path", VStr "/wal"); ("err", VErr Faulty.denied)]
     ∈ logged (CleanupStorage Faulty.cleaner Faulty.noRootWorld).2)
  ∧ mtimeWarning "/wal/empty-1"
      (Errorf ("unable to determine most recent segment for "
               +:+ wal.SubDirectory "/wal/empty-1"))
    ∈ logged (CleanupStorage Faulty.cleaner Faulty.theWorld).2.
Proof.
  split.
  - pose proof (CleanupStorage_absorbs_failures Faulty.cleaner
                  Faulty.noRootWorld) as H.
    cbv zeta in H. destruct H as (_ & Hroot & _).
    apply (Hroot Faulty.denied). vm_compute. reflexivity.
  - pose proof (CleanupStorage_absorbs_failures Faulty.cleaner
                  Faulty.theWorld) as H.
    cbv zeta in H. destruct H as (_ & _ & _ & Hdir).
    apply (Hdir "/wal/empty-1" time.zero).
    + apply (bool_decide_unpack _). vm_compute. exact I.
    + vm_compute. reflexivity.
    + vm_compute. reflexivity.
Defined.

(** ** Construction and stop *)

(** C10.  [NewCleaner] with a period that is not positive panics (in
    [time.NewTicker], before the goroutine is started); it returns a
    cleaner only for a positive period. *)
Theorem NewCleaner_period (manager : Manager) (walDirectory : string)
    (minAge period : time.Duration) (w : World) :
  (period <= 0 →
   NewCleaner manager walDirectory minAge period w
   = Panics "non-positive interval for NewTicker")
  ∧ (∀ c rt, NewCleaner manager walDirectory minAge period w
             = Returns (c, rt) →
             0 < period).
Proof.
  unfold NewCleaner, NewTicker.
  destruct (Z.leb_spec period 0) as [Hle | Hgt]; split.
  - reflexivity.
  - discriminate.
  - lia.
  - intros; lia.
Qed.

Lemma NewCleaner_period_witness :
  NewCleaner Scenario.registry "/wal" (6 * time.Hour) 0 Scenario.theWorld
  = Panics "non-positive interval for NewTicker"
  ∧ 0 < time.Hour.
Proof.
  split.
  - apply (proj1 (NewCleaner_period Scenario.registry "/wal"
                    (6 * time.Hour) 0 Scenario.theWorld)).
    lia.
  - apply (proj2 (NewCleaner_period Scenario.registry "/wal"
                    (6 * time.Hour) time.Hour Scenario.theWorld)
             Scenario.cleaner Scenario.started).
    reflexivity.
Defined.

Lemma Stop_returns (rt rt' : Runtime) :
  Stop rt = Returns rt' →
  done rt = false ∧ stopped rt' ∧ task rt' = task rt
  ∧ passesBegun rt' = passesBegun rt
  ∧ time.full (ticker rt') = time.full (ticker rt).
Proof.
  unfold Stop, close, stopped. simpl.
  destruct (done rt); [discriminate |].
  intros H. inversion H. subst rt'. simpl. auto.
Qed.

(** C9.  A second call of [Stop] panics: the first call closed [done], and
    closing a closed channel panics. *)
Theorem Stop_twice_panics (rt rt' : Runtime) :
  Stop rt = Returns rt' → Stop rt' = Panics "close of closed channel".
Proof.
  intros H. apply Stop_returns in H as (_ & [_ Hdone] & _).
  unfold Stop, close. simpl. rewrite Hdone. reflexivity.
Qed.

Lemma Stop_twice_panics_witness :
  ∃ rt', Stop Scenario.started = Returns rt'
         ∧ Stop rt' = Panics "close of closed channel".
Proof.
  eexists. split; [reflexivity |].
  eapply (Stop_twice_panics Scenario.started). reflexivity.
Defined.

(** ** The goroutine after [Stop] *)

Lemma exec_stopped (c : walCleaner) (e : event) (rt rt' : Runtime) :
  stopped rt → exec c e rt = Some rt' →
  stopped rt' ∧ e ≠ Tick ∧ (remaining rt' < remaining rt)%nat
  ∧ (passBudget rt' ≤ passBudget rt)%nat.
Proof.
  unfold stopped, remaining, passBudget.
  intros [Hrun Hdone] Hexec.
  destruct rt as [w [run full] dn tk n]. simpl in *. subst run dn.
  destruct e; simpl in Hexec.
  - discriminate.
  - destruct tk; try discriminate. inversion Hexec. subst rt'. simpl.
    repeat split; try discriminate; destruct full; lia.
  - destruct tk; try discriminate. destruct full; try discriminate.
    inversion Hexec. subst rt'. simpl.
    repeat split; try discriminate; lia.
  - destruct tk; try discriminate.
    destruct (runTick c w) as [u w']. inversion Hexec. subst rt'. simpl.
    repeat split; try discriminate; destruct full; lia.
Qed.

Lemma execAll_stopped (c : walCleaner) (es : list event) :
  ∀ rt rt', stopped rt → execAll c es rt = Some rt' →
    stopped rt' ∧ (Tick ∉ es)
    ∧ (length es + remaining rt' ≤ remaining rt)%nat
    ∧ (passBudget rt' ≤ passBudget rt)%nat.
Proof.
  induction es as [| e es IH]; intros rt rt' Hst Hexec; simpl in Hexec.
  - inversion Hexec. subst rt'. repeat split; [exact (proj1 Hst)
      | exact (proj2 Hst) | apply not_elem_of_nil | simpl; lia | lia].
  - destruct (exec c e rt) as [rt1 |] eqn:Hone; [| discriminate].
    apply (exec_stopped c e rt rt1 Hst) in Hone
      as (Hst1 & Hne & Hrem & Hbud).
    apply (IH rt1 rt' Hst1) in Hexec as (Hst' & Hno & Hlen & Hbud').
    repeat split; [exact (proj1 Hst') | exact (proj2 Hst') | | simpl; lia
                   | lia].
    apply not_elem_of_cons. split; [congruence | exact Hno].
Qed.

Lemma stopped_stuck_iff (c : walCleaner) (rt : Runtime) :
  stopped rt → stuck c rt ↔ task rt = Exited.
Proof.
  unfold stopped, stuck. intros [Hrun Hdone].
  destruct rt as [w [run full] dn tk n]. simpl in *. subst run dn. split.
  - intros Hstuck. destruct tk; [| | reflexivity].
    + specialize (Hstuck RecvDone). simpl in Hstuck. discriminate.
    + specialize (Hstuck PassReturns). simpl in Hstuck.
      destruct (runTick c w). discriminate.
  - intros ->. intros []; reflexivity.
Qed.

(** C7, where the specification fails: a tick that waits in the ticker's
    channel when [Stop] is called is still there after [Stop] has returned,
    and the [select] of [run], finding both cases ready, may take it: a pass
    begins after [Stop] returned. *)
Lemma Stop_then_pass_begins_counterexample :
  ∃ rt rt1 rt2,
    NewCleaner Scenario.registry "/wal" (6 * time.Hour) time.Hour
      Scenario.theWorld = Returns (Scenario.cleaner, Scenario.started)
    ∧ execAll Scenario.cleaner Scenario.busy Scenario.started = Some rt
    ∧ Stop rt = Returns rt1
    ∧ execAll Scenario.cleaner [PassReturns; RecvTick] rt1 = Some rt2
    ∧ passesBegun rt1 = 1%nat ∧ passesBegun rt2 = 2%nat
    ∧ task rt2 = InPass.
Proof.
  eexists _, _, _.
  split; [reflexivity |]. split; [reflexivity |].
  split; [reflexivity |]. split; [reflexivity |].
  split; [reflexivity |]. split; reflexivity.
Qed.

(** C7, as the code has it.  After [Stop] has returned: the ticker sends
    no further tick; at most one further pass begins, and none if no tick
    was waiting in the channel when [Stop] returned; every run takes at most
    4 more events; and the goroutine has returned exactly when no event can
    happen any more, so that it is not leaked. *)
Theorem Stop_then_at_most_one_pass (c : walCleaner) (rt rt1 rt2 : Runtime)
    (es : list event) :
  Stop rt = Returns rt1 →
  execAll c es rt1 = Some rt2 →
  (Tick ∉ es)
  ∧ (passesBegun rt2 ≤ passesBegun rt1 + 1)%nat
  ∧ (time.full (ticker rt1) = false → passesBegun rt2 = passesBegun rt1)
  ∧ (passesBegun rt1 ≤ passesBegun rt2)%nat
  ∧ (length es ≤ 4)%nat
  ∧ (stuck c rt2 ↔ task rt2 = Exited).
Proof.
  intros Hstop Hexec.
  apply Stop_returns in Hstop as (_ & Hst & _).
  assert (passesBegun rt1 ≤ passesBegun rt2)%nat as Hmono.
  { clear Hst. revert rt1 Hexec.
    induction es as [| e es IH]; intros rt1 Hexec; simpl in Hexec.
    - inversion Hexec. lia.
    - destruct (exec c e rt1) as [r |] eqn:Hone; [| discriminate].
      apply IH in Hexec.
      assert (passesBegun rt1 ≤ passesBegun r)%nat; [| lia].
      unfold exec in Hone.
      destruct e, (task rt1); simpl in Hone;
        repeat match type of Hone with
               | context [TickerFire ?t] => destruct (TickerFire t)
               | context [if ?b then _ else _] => destruct b
               | context [runTick ?c ?w] => destruct (runTick c w)
               end;
        inversion Hone; subst; simpl; lia. }
  apply (execAll_stopped c es rt1 rt2 Hst) in Hexec
    as (Hst2 & Hno & Hlen & Hbud).
  unfold passBudget in Hbud.
  assert (remaining rt1 ≤ 4)%nat
    by (unfold remaining; destruct (task rt1), (time.full (ticker rt1)); lia).
  split; [exact Hno |].
  split; [destruct (time.full (ticker rt1)), (time.full (ticker rt2)); lia |].
  split.
  { intros Hfull. rewrite Hfull in Hbud.
    destruct (time.full (ticker rt2)); lia. }
  split; [exact Hmono |].
  split; [lia |].
  apply stopped_stuck_iff. exact Hst2.
Qed.

Lemma Stop_then_at_most_one_pass_witness :
  ∃ rt1 rt2,
    Stop Scenario.started = Returns rt1
    ∧ execAll Scenario.cleaner [RecvDone] rt1 = Some rt2
    ∧ passesBegun rt2 = passesBegun rt1
    ∧ task rt2 = Exited.
Proof.
  eexists _, _.
  split; [reflexivity |]. split; [reflexivity |].
  pose proof (Stop_then_at_most_one_pass Scenario.cleaner Scenario.started
                _ _ [RecvDone] eq_refl eq_refl)
    as (_ & _ & Hsame & _ & _ & Hstuck).
  split; [apply Hsame; reflexivity | reflexivity].
Defined.

(** * Further properties of the package *)

(** ** The managed set *)

Lemma getManagedStorage_values (instances : gmap string ManagedInstance)
    (d : string) (b : bool) :
  getManagedStorage instances !! d = Some b → b = true.
Proof.
  unfold getManagedStorage. revert d b.
  apply (map_fold_weak_ind
           (λ (r : gmap string bool) (m : gmap string ManagedInstance),
              ∀ d b, r !! d = Some b → b = true)).
  - intros d b. rewrite lookup_empty. discriminate.
  - intros i x m r _ IH d b.
    destruct (decide (StorageDirectory x = d)) as [Heq | Hne].
    + subst d. rewrite lookup_insert_eq. congruence.
    + rewrite lookup_insert_ne by done. apply IH.
Qed.

Lemma getManagedStorage_Some_true (instances : gmap string ManagedInstance)
    (d : string) :
  getManagedStorage instances !! d = Some true
  ↔ ∃ k inst, instances !! k = Some inst ∧ StorageDirectory inst = d.
Proof.
  rewrite <- getManagedStorage_true. unfold lookupBool.
  destruct (getManagedStorage instances !! d) as [b |] eqn:Hb; simpl.
  - split; congruence.
  - split; discriminate.
Qed.

(** X1.  [getManagedStorage] maps a path to [true] exactly when some
    instance of the snapshot has it as storage directory, and it never maps
    a path to [false]: the identifiers of the instances play no role, and
    several instances with one storage directory give one entry. *)
Theorem getManagedStorage_spec (instances : gmap string ManagedInstance)
    (d : string) :
  (getManagedStorage instances !! d = Some true
   ↔ ∃ k inst, instances !! k = Some inst ∧ StorageDirectory inst = d)
  ∧ getManagedStorage instances !! d ≠ Some false.
Proof.
  split.
  - apply getManagedStorage_Some_true.
  - intros Hf. apply getManagedStorage_values in Hf. discriminate.
Qed.

Lemma getManagedStorage_spec_witness :
  getManagedStorage (ListInstances Scenario.registry) !! "/wal/inst-2"
  = Some true.
Proof.
  apply (proj1 (getManagedStorage_spec (ListInstances Scenario.registry)
                  "/wal/inst-2")).
  exists "b", (mkManagedInstance "/wal/inst-2"). split; reflexivity.
Defined.

(** X2.  Two snapshots with the same storage directories give the same
    managed set, hence the same abandoned directories: which instance owns
    a directory, and under which identifier, does not matter. *)
Theorem getManagedStorage_by_directories
    (inst1 inst2 : gmap string ManagedInstance) :
  (∀ d, (∃ k i, inst1 !! k = Some i ∧ StorageDirectory i = d)
        ↔ (∃ k i, inst2 !! k = Some i ∧ StorageDirectory i = d)) →
  getManagedStorage inst1 = getManagedStorage inst2
  ∧ ∀ c now w, (abandonedStorage c inst1 now w).1
               = (abandonedStorage c inst2 now w).1.
Proof.
  intros Hsame.
  assert (getManagedStorage inst1 = getManagedStorage inst2) as Heq.
  { apply map_eq. intros d.
    pose proof (getManagedStorage_Some_true inst1 d) as H1.
    pose proof (getManagedStorage_Some_true inst2 d) as H2.
    pose proof (getManagedStorage_values inst1 d false) as F1.
    pose proof (getManagedStorage_values inst2 d false) as F2.
    specialize (Hsame d).
    destruct (getManagedStorage inst1 !! d) as [[|] |] eqn:E1;
      destruct (getManagedStorage inst2 !! d) as [[|] |] eqn:E2;
      try reflexivity;
      try (specialize (F1 eq_refl); discriminate);
      try (specialize (F2 eq_refl); discriminate).
    - exfalso. assert (@None bool = Some true); [| discriminate].
      apply H2, Hsame, H1. reflexivity.
    - exfalso. assert (@None bool = Some true); [| discriminate].
      apply H1, Hsame, H2. reflexivity. }
  split; [exact Heq |].
  intros c now w. rewrite !abandonedStorage_run, Heq. reflexivity.
Qed.

Lemma getManagedStorage_by_directories_witness :
  getManagedStorage (ListInstances Scenario.registry)
  = getManagedStorage
      (<["x" := mkManagedInstance "/wal/inst-2"]>
       (<["y" := mkManagedInstance "/wal/inst-1"]>
        (<["z" := mkManagedInstance "/wal/inst-2"]> ∅))).
Proof.
  apply getManagedStorage_by_directories.
  intros d. rewrite <- !getManagedStorage_true.
  assert (∀ m1 m2 : gmap string bool, m1 = m2 →
            lookupBool m1 d = true ↔ lookupBool m2 d = true) as Hcong
    by (intros m1 m2 ->; reflexivity).
  apply Hcong. vm_compute. reflexivity.
Defined.

(** ** What [abandonedStorage] returns *)

Lemma Sub_bounds (t u : time.Time) : time.isDuration (time.Sub t u).
Proof.
  unfold time.isDuration, time.Sub.
  destruct (Z.ltb_spec (t - u) time.minDuration) as [Hlo | Hlo];
    [| destruct (Z.ltb_spec time.maxDuration (t - u)) as [Hhi | Hhi]];
    unfold time.minDuration, time.maxDuration in *;
    change (2 ^ 63) with 9223372036854775808 in *; lia.
Qed.

Lemma Sub_mono (t t' u : time.Time) :
  t <= t' → time.Sub t u <= time.Sub t' u.
Proof.
  unfold time.Sub. intros Hle.
  destruct (Z.ltb_spec (t - u) time.minDuration) as [Hlo | Hlo];
    destruct (Z.ltb_spec (t' - u) time.minDuration) as [Hlo' | Hlo'];
    destruct (Z.ltb_spec time.maxDuration (t - u)) as [Hhi | Hhi];
    destruct (Z.ltb_spec time.maxDuration (t' - u)) as [Hhi' | Hhi'];
    unfold time.minDuration, time.maxDuration in *;
    change (2 ^ 63) with 9223372036854775808 in *; lia.
Qed.

Lemma Sub_gt_complete (t u : time.Time) (m : time.Duration) :
  m < time.maxDuration → t - u > m → (time.Sub t u >? m) = true.
Proof.
  unfold time.Sub. intros Hm Hgt. rewrite Z.gtb_gt.
  destruct (Z.ltb_spec (t - u) time.minDuration) as [Hlo | Hlo];
    [| destruct (Z.ltb_spec time.maxDuration (t - u)) as [Hhi | Hhi]];
    unfold time.minDuration, time.maxDuration in *;
    change (2 ^ 63) with 9223372036854775808 in *; lia.
Qed.

(** X3.  Completeness of the classification: a directory that
    [getAllStorage] lists, that no instance manages, whose newest segment
    can be inspected and is older than [minAge] is returned by
    [abandonedStorage] (for a [minAge] below the largest duration). *)
Theorem abandonedStorage_complete (c : walCleaner)
    (instances : gmap string ManagedInstance) (now : time.Time) (w : World)
    (d : string) (mtime : time.Time) :
  d ∈ (getAllStorage c w).1 →
  (∀ k inst, instances !! k = Some inst → StorageDirectory inst ≠ d) →
  (lastWrittenTime d w).1 = (mtime, None) →
  minAge c < time.maxDuration →
  now - mtime > minAge c →
  d ∈ (abandonedStorage c instances now w).1.
Proof.
  intros Hall Hun Hlast Hmax Hage.
  apply abandonedStorage_elem. split; [exact Hall |].
  apply eligible_true. split.
  - destruct (lookupBool (getManagedStorage instances) d) eqn:Hb;
      [| reflexivity].
    apply getManagedStorage_true in Hb as (k & inst & Hk & Hd).
    exfalso. exact (Hun k inst Hk Hd).
  - exists mtime. rewrite <- inspect_run. split; [exact Hlast |].
    apply Sub_gt_complete; assumption.
Qed.

Lemma abandonedStorage_complete_witness :
  "/wal/orphan-1"
  ∈ (abandonedStorage Faulty.cleaner (ListInstances Faulty.registry)
       Faulty.now Faulty.theWorld).1.
Proof.
  apply (abandonedStorage_complete Faulty.cleaner
           (ListInstances Faulty.registry) Faulty.now Faulty.theWorld
           "/wal/orphan-1" (Faulty.now - 10 * time.Hour)).
  - apply (bool_decide_unpack _). vm_compute. exact I.
  - intros k inst Hk Hd.
    assert (lookupBool (getManagedStorage (ListInstances Faulty.registry))
              "/wal/orphan-1" = true) as Ht
      by (apply getManagedStorage_true; eauto).
    vm_compute in Ht. discriminate.
  - vm_compute. reflexivity.
  - vm_compute. reflexivity.
  - vm_compute. reflexivity.
Defined.

(** X4.  With [minAge] at the largest duration (or above) nothing is ever
    abandoned: [Time.Sub] saturates at that duration, and the test
    [diff > minAge] is strict. *)
Theorem abandonedStorage_max_minAge (c : walCleaner)
    (instances : gmap string ManagedInstance) (now : time.Time) (w : World) :
  time.maxDuration <= minAge c →
  (abandonedStorage c instances now w).1 = [].
Proof.
  intros Hmax. apply elem_of_nil_inv. intros d Hin.
  apply abandonedStorage_elem in Hin as [_ Hel].
  apply eligible_true in Hel as (_ & mtime & _ & Hgt).
  apply Z.gtb_gt in Hgt.
  pose proof (Sub_bounds now mtime) as [_ Hhi]. lia.
Qed.

Lemma abandonedStorage_max_minAge_witness :
  (abandonedStorage (mkWalCleaner "/wal" Faulty.registry time.maxDuration)
     (ListInstances Faulty.registry) (Faulty.now + 1000 * time.Hour)
     Faulty.theWorld).1 = [].
Proof.
  apply abandonedStorage_max_minAge. simpl. lia.
Defined.

(** X5.  What is abandoned only grows with time and with a smaller
    [minAge]: on the same disk, a directory returned at [now] with [minAge]
    is returned at any later time [now'] with any [minAge'] that is not
    larger. *)
Theorem abandonedStorage_monotone (c c' : walCleaner)
    (instances : gmap string ManagedInstance) (now now' : time.Time)
    (w : World) (d : string) :
  walDirectory c' = walDirectory c →
  minAge c' <= minAge c →
  now <= now' →
  d ∈ (abandonedStorage c instances now w).1 →
  d ∈ (abandonedStorage c' instances now' w).1.
Proof.
  intros Hdir Hage Hnow Hin.
  apply abandonedStorage_elem in Hin as [Hall Hel].
  apply abandonedStorage_elem. split.
  - rewrite getAllStorage_eq in *. cbn [fst] in *.
    unfold allStorage in *. rewrite Hdir. exact Hall.
  - apply eligible_true in Hel as (Hun & mtime & Hins & Hgt).
    apply eligible_true. split; [exact Hun |].
    exists mtime. split; [exact Hins |].
    apply Z.gtb_gt in Hgt. apply Z.gtb_gt.
    pose proof (Sub_mono now now' mtime Hnow). lia.
Qed.

Lemma abandonedStorage_monotone_witness :
  "/wal/orphan-1"
  ∈ (abandonedStorage Faulty.cleaner (ListInstances Faulty.registry)
       (Faulty.now + time.Hour) Faulty.theWorld).1.
Proof.
  apply (abandonedStorage_monotone Faulty.cleaner10 Faulty.cleaner
           (ListInstances Faulty.registry)
           (Faulty.now + 1) (Faulty.now + time.Hour)).
  - reflexivity.
  - vm_compute. discriminate.
  - vm_compute. discriminate.
  - apply (bool_decide_unpack _). vm_compute. exact I.
Defined.

(** X6.  [abandonedStorage] returns its directories in the order in which
    [getAllStorage] lists them, each at most as often as it is listed: the
    result is a sublist of the listing, without repetition when the listing
    has none. *)
Theorem abandonedStorage_sublist (c : walCleaner)
    (instances : gmap string ManagedInstance) (now : time.Time) (w : World) :
  (abandonedStorage c instances now w).1 `sublist_of` (getAllStorage c w).1
  ∧ (NoDup (getAllStorage c w).1 →
     NoDup (abandonedStorage c instances now w).1).
Proof.
  assert ((abandonedStorage c instances now w).1
          `sublist_of` (getAllStorage c w).1) as Hsub.
  { rewrite abandonedStorage_run, getAllStorage_eq. cbn [fst].
    apply sublist_filter. }
  split; [exact Hsub |].
  intros Hnd. exact (sublist_NoDup _ _ Hnd Hsub).
Qed.

Lemma abandonedStorage_sublist_witness :
  NoDup (abandonedStorage Faulty.cleaner (ListInstances Faulty.registry)
           Faulty.now Faulty.theWorld).1.
Proof.
  apply (proj2 (abandonedStorage_sublist Faulty.cleaner
                  (ListInstances Faulty.registry) Faulty.now
                  Faulty.theWorld)).
  apply (bool_decide_unpack _). vm_compute. exact I.
Defined.

(** ** What a pass leaves behind *)

Lemma filter_fmap_none {A B : Type} (f : A → B) (P : B → bool) (l : list A) :
  (∀ a, P (f a) = false) → filter P (f <$> l) = [].
Proof.
  intros Hno. induction l as [| a l IH]; [reflexivity |].
  rewrite fmap_cons, filter_cons_bool, Hno, IH. reflexivity.
Qed.

Lemma filter_fmap_all {A B : Type} (f : A → B) (P : B → bool) (l : list A) :
  (∀ a, P (f a) = true) → filter P (f <$> l) = f <$> l.
Proof.
  intros Hall. induction l as [| a l IH]; [reflexivity |].
  rewrite fmap_cons, filter_cons_bool, Hall, IH. reflexivity.
Qed.

Lemma traverseWarnings_level (c : walCleaner) (dk : Disk)
    (lvl : level.Level) :
  lvl ≠ level.Warn → filter (atLevel lvl) (traverseWarnings c dk) = [].
Proof.
  intros Hlvl. unfold traverseWarnings.
  induction (visits (walDirectory c) (treeAt dk (walDirectory c)))
    as [| v l IH]; [reflexivity |].
  rewrite omap_cons_list, filter_app, IH, app_nil_r.
  unfold traverseWarning. destruct (readError v.2); [| reflexivity].
  match goal with
  | |- context [option_list (Some ?x)] =>
      change (option_list (Some x)) with [x]
  end.
  rewrite filter_cons_bool.
  destruct lvl; try reflexivity. congruence.
Qed.

Lemma scanLine_level (dk : Disk) (managed : gmap string bool)
    (now : time.Time) (d : string) (lvl : level.Level) :
  lvl = level.Info ∨ lvl = level.Error →
  atLevel lvl (scanLine dk managed now d) = false.
Proof.
  unfold scanLine.
  intros [-> | ->]; destruct (negb (lookupBool managed d));
    try reflexivity; destruct (inspect dk d) as [t [e |]]; reflexivity.
Qed.


Lemma CleanupStorage_no_error_lines (c : walCleaner) (w : World) :
  filter (atLevel level.Error) (newLines (CleanupStorage c) w) = [].
Proof.
  unfold newLines. rewrite CleanupStorage_logged, drop_app_length.
  rewrite !filter_app.
  rewrite (traverseWarnings_level c (disk w) level.Error) by discriminate.
  rewrite (filter_fmap_none _ (atLevel level.Error))
    by (intros a; apply scanLine_level; auto).
  rewrite (filter_fmap_none wouldDelete (atLevel level.Error))
    by reflexivity.
  reflexivity.
Qed.

(** X7.  A pass only logs: after [CleanupStorage] the disk, the clock and
    the set of open WAL handles are what they were, and the log is the old
    log with lines added at its end. *)
Theorem CleanupStorage_frame (c : walCleaner) (w : World) :
  let w' := (CleanupStorage c w).2 in
  disk w' = disk w ∧ clock w' = clock w ∧ openWALs w' = openWALs w
  ∧ logged w `prefix_of` logged w'
  ∧ logged w' = logged w ++ newLines (CleanupStorage c) w.
Proof.
  cbv zeta. unfold newLines. rewrite CleanupStorage_logged.
  rewrite CleanupStorage_run. cbn [snd disk clock openWALs logged withLogged].
  rewrite drop_app_length.
  repeat split; try reflexivity. apply prefix_app_r. reflexivity.
Qed.

(** X8.  Among the lines a pass adds to the log, those at level Info are
    exactly the lines "would delete WAL", one for each abandoned directory
    in the order [abandonedStorage] returns them, and none is at level
    Error. *)
Theorem CleanupStorage_info_lines (c : walCleaner) (w : World) :
  let lines := newLines (CleanupStorage c) w in
  filter (atLevel level.Info) lines
  = wouldDelete
      <$> (abandonedStorage c (ListInstances (instanceManager c)) (clock w)
             w).1
  ∧ filter (atLevel level.Error) lines = [].
Proof.
  cbv zeta. unfold newLines. rewrite CleanupStorage_logged, drop_app_length.
  rewrite abandonedStorage_run. cbn [fst].
  rewrite !filter_app.
  rewrite (traverseWarnings_level c (disk w) level.Info) by discriminate.
  rewrite (traverseWarnings_level c (disk w) level.Error) by discriminate.
  rewrite (filter_fmap_none _ (atLevel level.Info))
    by (intros a; apply scanLine_level; auto).
  rewrite (filter_fmap_none _ (atLevel level.Error))
    by (intros a; apply scanLine_level; auto).
  rewrite (filter_fmap_all wouldDelete (atLevel level.Info))
    by reflexivity.
  rewrite (filter_fmap_none wouldDelete (atLevel level.Error))
    by reflexivity.
  split; reflexivity.
Qed.


(** X10.  The tick case of [run] has the effect of one [CleanupStorage]
    and nothing more: as [CleanupStorage] returns nil, the branch that logs
    "cleanup failed" is never taken. *)
Theorem runTick_is_CleanupStorage (c : walCleaner) (w : World) :
  runTick c w = ((), (CleanupStorage c w).2)
  ∧ filter (atLevel level.Error) (newLines (runTick c) w) = [].
Proof.
  assert (runTick c w = ((), (CleanupStorage c w).2)) as Hrun.
  { unfold runTick. rewrite bind_run, CleanupStorage_run. reflexivity. }
  split; [exact Hrun |].
  unfold newLines. rewrite Hrun. cbn [snd].
  apply CleanupStorage_no_error_lines.
Qed.

(** ** What [getAllStorage] lists *)







Lemma listed_parent (root : string) (v : string * Node) :
  listed root v = true → path.Dir v.1 = root ∧ isReadableDir v.2 = true.
Proof.
  unfold listed. destruct v as [p n]. cbn [fst snd].
  destruct n; cbn; try discriminate.
  intros H. split; [| reflexivity]. apply String.eqb_eq. exact H.
Qed.





(** X12.  Whatever the tree and the root, every path that [getAllStorage]
    returns is the path of a visited directory whose names could be read
    and whose parent by [path.Dir] is [walDirectory]: files, directories
    that cannot be read and entries on which [Lstat] fails are never
    returned. *)
Theorem getAllStorage_only_directories (c : walCleaner) (w : World)
    (d : string) :
  d ∈ (getAllStorage c w).1 →
  path.Dir d = walDirectory c
  ∧ ∃ m es, (d, Dir m es)
            ∈ visits (walDirectory c) (treeAt (disk w) (walDirectory c)).
Proof.
  rewrite getAllStorage_eq. cbn [fst]. intros Hin.
  apply allStorage_elem in Hin as (n & Hv & Hl).
  apply listed_parent in Hl as [Hdir Hn]. cbn [fst snd] in *.
  split; [exact Hdir |].
  destruct n; try discriminate. eauto.
Qed.

Lemma getAllStorage_only_directories_witness :
  path.Dir "/wal/young-1" = walDirectory Faulty.cleaner
  ∧ ∃ m es, ("/wal/young-1", Dir m es)
            ∈ visits (walDirectory Faulty.cleaner)
                (treeAt (disk Faulty.theWorld) (walDirectory Faulty.cleaner)).
Proof.
  apply (getAllStorage_only_directories Faulty.cleaner Faulty.theWorld).
  apply (bool_decide_unpack _). vm_compute. exact I.
Defined.

(** ** A root that is not in clean form *)

Lemma SplitSlash_noslash (s : string) :
  Forall (λ e, hasSlash e = false) (path.SplitSlash s).
Proof.
  induction s as [| c s IH]; cbn [path.SplitSlash].
  - repeat constructor.
  - destruct (isSlash c) eqn:Hc.
    + constructor; [reflexivity | exact IH].
    + destruct (path.SplitSlash s) as [| hd tl].
      * constructor; [| constructor]. cbn [hasSlash]. rewrite Hc. reflexivity.
      * inversion IH as [| ? ? Hhd Htl]; subst.
        constructor; [| exact Htl]. cbn [hasSlash]. rewrite Hc. exact Hhd.
Qed.

Lemma cleanElem_keptOK (rooted : bool) (kept : list string) (e : string) :
  hasSlash e = false → keptOK rooted kept →
  keptOK rooted (path.cleanElem rooted kept e).
Proof.
  intros He Hk. unfold path.cleanElem.
  destruct (String.eqb_spec e ""); [exact Hk |].
  destruct (String.eqb_spec e "."); [exact Hk |].
  destruct (String.eqb_spec e "..") as [Hdd | Hdd].
  - destruct kept as [| k kept'].
    + destruct rooted; [exact I |]. cbn. repeat split; auto.
    + destruct (String.eqb_spec k "..") as [Hk0 | Hk0].
      * cbn [keptOK]. split; [repeat split; auto |]. split; [| exact Hk].
        intros _. split; [| exact Hk0].
        destruct Hk as (_ & Hr & _). exact (proj1 (Hr Hk0)).
      * destruct Hk as (_ & _ & Hk). exact Hk.
  - cbn [keptOK]. split; [repeat split; auto |]. split; [| exact Hk].
    intros Heq. contradiction.
Qed.

Lemma foldl_cleanElem_keptOK (rooted : bool) (es : list string) :
  Forall (λ e, hasSlash e = false) es →
  ∀ kept, keptOK rooted kept →
          keptOK rooted (foldl (path.cleanElem rooted) kept es).
Proof.
  induction 1 as [| e es He _ IH]; intros kept Hk; [exact Hk |].
  cbn [foldl]. apply IH. apply cleanElem_keptOK; assumption.
Qed.

Lemma cleanElem_replay (rooted : bool) (kept : list string) :
  keptOK rooted kept →
  foldl (path.cleanElem rooted) [] (reverse kept) = kept.
Proof.
  induction kept as [| e k IH]; intros Hk; [reflexivity |].
  destruct Hk as ((He1 & He2 & He3) & Hdd & Hk).
  rewrite reverse_cons, foldl_app. cbn [foldl]. rewrite (IH Hk).
  destruct (String.eqb_spec e "..") as [Heq | Hne].
  - destruct (Hdd Heq) as [Hr Htop]. subst e rooted.
    destruct k as [| k0 k']; [reflexivity |]. subst k0. reflexivity.
  - apply cleanElem_plain. repeat split; assumption.
Qed.

Lemma keptOK_Forall (rooted : bool) (kept : list string) :
  keptOK rooted kept → Forall keptElem kept.
Proof.
  induction kept as [| e k IH]; intros Hk; [constructor |].
  destruct Hk as (He & _ & Hk). constructor; auto.
Qed.

Lemma SplitSlash_JoinSlash (cs : list string) :
  cs ≠ [] → Forall (λ e, hasSlash e = false) cs →
  path.SplitSlash (path.JoinSlash cs) = cs.
Proof.
  intros Hne Hall. induction Hall as [| e es He Hes IH]; [contradiction |].
  destruct es as [| e' es'].
  - cbn [path.JoinSlash]. apply SplitSlash_plain. exact He.
  - change (path.JoinSlash (e :: e' :: es'))
      with (e +:+ "/" +:+ path.JoinSlash (e' :: es')).
    rewrite SplitSlash_app, (SplitSlash_plain e He), IH by discriminate.
    reflexivity.
Qed.

Lemma JoinSlash_head (e : string) (es : list string) :
  keptElem e →
  path.JoinSlash (e :: es) ≠ ""
  ∧ path.HasSlashPrefix (path.JoinSlash (e :: es)) = false.
Proof.
  intros (Hne & _ & Hs).
  destruct e as [| c e]; [contradiction |].
  cbn [hasSlash] in Hs. apply orb_false_elim in Hs as [Hc _].
  destruct es as [| e' es']; cbn [path.JoinSlash];
    rewrite ?append_cons; split; try discriminate; exact Hc.
Qed.

Lemma elems_keptOK (p : string) :
  keptOK (path.HasSlashPrefix p)
    (foldl (path.cleanElem (path.HasSlashPrefix p)) [] (path.SplitSlash p)).
Proof.
  apply foldl_cleanElem_keptOK; [apply SplitSlash_noslash | exact I].
Qed.

(** [path.Clean] is idempotent. *)
Lemma Clean_idem (p : string) : path.Clean (path.Clean p) = path.Clean p.
Proof.
  pose proof (elems_keptOK p) as Hk.
  rewrite (Clean_render p). unfold elems.
  set (r := path.HasSlashPrefix p) in *.
  set (kept := foldl (path.cleanElem r) [] (path.SplitSlash p)) in *.
  pose proof (cleanElem_replay r kept Hk) as Hreplay.
  pose proof (keptOK_Forall r kept Hk) as Hall.
  assert (Forall (λ e, hasSlash e = false) (reverse kept)) as Hns.
  { apply Forall_reverse. eapply Forall_impl; [exact Hall |].
    intros e (_ & _ & He). exact He. }
  assert (Forall keptElem (reverse kept)) as Hall'.
  { apply Forall_reverse. exact Hall. }
  destruct (reverse kept) as [| e es] eqn:Hcs.
  - assert (kept = []) as ->.
    { apply (f_equal reverse) in Hcs. rewrite reverse_involutive in Hcs.
      exact Hcs. }
    destruct r; reflexivity.
  - inversion Hall' as [| ? ? He _]; subst.
    destruct (JoinSlash_head e es He) as [Hne Hpre].
    destruct r.
    + assert (render true (e :: es) = "/" +:+ path.JoinSlash (e :: es))
        as Hrender by reflexivity.
      rewrite Hrender, Clean_render. unfold elems.
      change (path.HasSlashPrefix ("/" +:+ path.JoinSlash (e :: es)))
        with true.
      change (path.SplitSlash ("/" +:+ path.JoinSlash (e :: es)))
        with ("" :: path.SplitSlash (path.JoinSlash (e :: es))).
      rewrite SplitSlash_JoinSlash by (discriminate || exact Hns).
      change (foldl (path.cleanElem true) [] ("" :: e :: es))
        with (foldl (path.cleanElem true) [] (e :: es)).
      rewrite Hreplay, Hcs. reflexivity.
    + assert (render false (e :: es) = path.JoinSlash (e :: es)) as Hrender.
      { unfold render.
        destruct (String.eqb_spec (path.JoinSlash (e :: es)) "");
          [contradiction | reflexivity]. }
      rewrite Hrender, Clean_render. unfold elems. rewrite Hpre.
      rewrite SplitSlash_JoinSlash by (discriminate || exact Hns).
      rewrite Hreplay, Hcs. exact Hrender.
Qed.

Lemma Dir_clean (p : string) : path.Clean (path.Dir p) = path.Dir p.
Proof. unfold path.Dir. apply Clean_idem. Qed.

Lemma listed_root_clean (root : string) (v : string * Node) :
  listed root v = true → path.Clean root = root.
Proof.
  unfold listed. intros Hl.
  destruct (readError v.2); [discriminate |].
  destruct (filepath.lstatInfo v.2) as [i |]; [| discriminate].
  apply andb_prop in Hl as [_ Heq].
  apply String.eqb_eq in Heq. rewrite <- Heq. apply Dir_clean.
Qed.

(** X20.  [getAllStorage] compares [path.Dir(p)], which is always in clean
    form, with [walDirectory] as it was configured: when [walDirectory] is
    not in clean form (a slash at its end, a doubled slash, [./] before
    it), on every disk nothing is listed and so nothing is ever found
    abandoned. *)
Theorem getAllStorage_unclean_root_empty (c : walCleaner) (w : World) :
  path.Clean (walDirectory c) ≠ walDirectory c →
  (getAllStorage c w).1 = []
  ∧ ∀ instances now, (abandonedStorage c instances now w).1 = [].
Proof.
  intros Hunclean.
  assert (allStorage c (disk w) = []) as Hnone.
  { destruct (allStorage c (disk w)) as [| d ds] eqn:Hall; [reflexivity |].
    exfalso. apply Hunclean.
    assert (d ∈ allStorage c (disk w)) as Hd
      by (rewrite Hall; apply list_elem_of_here).
    apply allStorage_elem in Hd as (n & _ & Hlisted).
    exact (listed_root_clean _ _ Hlisted). }
  split.
  - rewrite getAllStorage_eq. exact Hnone.
  - intros instances now. rewrite abandonedStorage_run. cbn [fst].
    rewrite Hnone. reflexivity.
Qed.

Lemma getAllStorage_unclean_root_empty_witness :
  (getAllStorage (mkWalCleaner "//wal" Scenario.registry (6 * time.Hour))
     (mkWorld (withTree Scenario.theDisk Scenario.root) Scenario.now [] [])).1
  = []
  ∧ ∀ instances now,
      (abandonedStorage
         (mkWalCleaner "//wal" Scenario.registry (6 * time.Hour))
         instances now
         (mkWorld (withTree Scenario.theDisk Scenario.root) Scenario.now
            [] [])).1
      = [].
Proof.
  apply (getAllStorage_unclean_root_empty
           (mkWalCleaner "//wal" Scenario.registry (6 * time.Hour))).
  vm_compute. discriminate.
Defined.

(** ** The outcomes of [lastWrittenTime] *)

(** X13.  [lastWrittenTime] returns the zero time whenever it returns an
    error; it returns no error exactly when the WAL opens, [Segments]
    reports a last index other than [-1] and [Stat] succeeds on the file of
    that last segment, and the time returned is then the modification time
    of that file (the first index plays no role). *)
Theorem lastWrittenTime_outcomes (storage : string) (w : World) :
  let walDir := wal.SubDirectory storage in
  (∀ t e, (lastWrittenTime storage w).1 = (t, Some e) → t = time.zero)
  ∧ (∀ t, (lastWrittenTime storage w).1 = (t, None)
          ↔ ∃ first last segmentFile,
              walOpen (disk w) walDir = None
              ∧ walSegments (disk w) walDir = Ok (first, last)
              ∧ last ≠ -1
              ∧ statAt (disk w) (promwal.SegmentName walDir last)
                = Ok segmentFile
              ∧ os.ModTime segmentFile = t).
Proof.
  intros walDir. rewrite lastWrittenTime_result. fold walDir. split.
  - intros t e.
    destruct (walOpen (disk w) walDir); [congruence |].
    destruct (walSegments (disk w) walDir) as [[first last] | err];
      [| congruence].
    destruct (last =? -1); [congruence |].
    destruct (statAt (disk w) _); congruence.
  - intros t. split.
    + destruct (walOpen (disk w) walDir); [discriminate |].
      destruct (walSegments (disk w) walDir) as [[first last] | err];
        [| discriminate].
      destruct (Z.eqb_spec last (-1)); [discriminate |].
      destruct (statAt (disk w) _) as [fi |] eqn:Hstat; [| discriminate].
      intros H. inversion H. subst t.
      exists first, last, fi. auto.
    + intros (first & last & fi & -> & -> & Hlast & -> & <-).
      destruct (Z.eqb_spec last (-1)); [contradiction | reflexivity].
Qed.

Lemma lastWrittenTime_outcomes_witness :
  (lastWrittenTime "/wal/young-1" Faulty.theWorld).1
  = (Faulty.now - 1 * time.Hour, None).
Proof.
  apply (proj2 (lastWrittenTime_outcomes "/wal/young-1" Faulty.theWorld)).
  exists 0, 0, (os.mkFileInfo false (Faulty.now - 1 * time.Hour)).
  repeat split; try discriminate.
Defined.

(** ** The goroutine before [Stop] *)

Lemma exec_running (c : walCleaner) (e : event) (rt rt' : Runtime) :
  done rt = false → time.running (ticker rt) = true → task rt ≠ Exited →
  exec c e rt = Some rt' →
  done rt' = false ∧ time.running (ticker rt') = true ∧ task rt' ≠ Exited
  ∧ e ≠ RecvDone.
Proof.
  intros Hdone Hrun Htask Hexec.
  destruct rt as [w [run full] dn tk n]. simpl in *. subst run dn.
  destruct e; simpl in Hexec.
  - inversion Hexec. subst rt'. simpl. repeat split; congruence.
  - destruct tk; discriminate.
  - destruct tk; try discriminate. destruct full; try discriminate.
    inversion Hexec. subst rt'. simpl. repeat split; congruence.
  - destruct tk; try discriminate.
    destruct (runTick c w) as [u w']. inversion Hexec. subst rt'. simpl.
    repeat split; congruence.
Qed.

(** X14.  As long as [Stop] has not been called, whatever ticks arrive and
    whatever the goroutine does: [done] is open and the ticker runs, the
    goroutine has not returned (the [done] case of its [select] is never
    taken), and a call of [Stop] returns without panic. *)
Theorem run_until_Stop (manager : Manager) (walDirectory : string)
    (minAge period : time.Duration) (w : World) (c : walCleaner)
    (rt0 rt : Runtime) (es : list event) :
  NewCleaner manager walDirectory minAge period w = Returns (c, rt0) →
  execAll c es rt0 = Some rt →
  done rt = false ∧ time.running (ticker rt) = true ∧ task rt ≠ Exited
  ∧ (RecvDone ∉ es) ∧ ∃ rt', Stop rt = Returns rt'.
Proof.
  intros Hnew Hexec.
  assert (done rt0 = false ∧ time.running (ticker rt0) = true
          ∧ task rt0 ≠ Exited) as Hinv.
  { unfold NewCleaner, NewTicker in Hnew.
    destruct (period <=? 0); [discriminate |].
    inversion Hnew. subst. simpl. repeat split; congruence. }
  clear Hnew.
  assert (done rt = false ∧ time.running (ticker rt) = true
          ∧ task rt ≠ Exited ∧ RecvDone ∉ es) as (Hd & Hr & Ht & Hno).
  { revert rt0 Hinv Hexec.
    induction es as [| e es IH]; intros rt0 (Hd & Hr & Ht) Hexec;
      simpl in Hexec.
    - inversion Hexec. subst rt. repeat split; try assumption.
      apply not_elem_of_nil.
    - destruct (exec c e rt0) as [rt1 |] eqn:Hone; [| discriminate].
      apply (exec_running c e rt0 rt1 Hd Hr Ht) in Hone
        as (Hd1 & Hr1 & Ht1 & Hne).
      destruct (IH rt1 (conj Hd1 (conj Hr1 Ht1)) Hexec)
        as (Hd' & Hr' & Ht' & Hno').
      repeat split; try assumption.
      apply not_elem_of_cons. split; [congruence | exact Hno']. }
  repeat split; try assumption.
  unfold Stop, close. simpl. rewrite Hd. eauto.
Qed.

Lemma run_until_Stop_witness :
  ∃ rt, execAll Scenario.cleaner Scenario.busy Scenario.started = Some rt
        ∧ task rt ≠ Exited ∧ ∃ rt', Stop rt = Returns rt'.
Proof.
  eexists. split; [reflexivity |].
  pose proof (run_until_Stop Scenario.registry "/wal" (6 * time.Hour)
                time.Hour Scenario.theWorld Scenario.cleaner
                Scenario.started _ Scenario.busy eq_refl eq_refl)
    as (_ & _ & Ht & _ & Hstop).
  split; [exact Ht | exact Hstop].
Defined.

Lemma occurrences_cons (x e : event) (es : list event) :
  occurrences x (e :: es)
  = ((if bool_decide (e = x) then 1 else 0) + occurrences x es)%nat.
Proof.
  unfold occurrences. rewrite filter_cons.
  destruct (decide (e = x)) as [Heq | Hne].
  - rewrite (bool_decide_eq_true_2 _ Heq). reflexivity.
  - rewrite (bool_decide_eq_false_2 _ Hne). reflexivity.
Qed.

(** The counters of a run, from any state. *)
Lemma execAll_counts (c : walCleaner) (es : list event) :
  ∀ rt0 rt, execAll c es rt0 = Some rt →
    (passesBegun rt = passesBegun rt0 + occurrences RecvTick es
     ∧ passBudget rt ≤ passBudget rt0 + occurrences Tick es
     ∧ occurrences RecvTick es
       + passesRunning rt0
       = occurrences PassReturns es
         + passesRunning rt)%nat.
Proof.
  induction es as [| e es IH]; intros rt0 rt Hexec; simpl in Hexec.
  - inversion Hexec. subst rt. unfold occurrences. simpl. lia.
  - destruct (exec c e rt0) as [rt1 |] eqn:Hone; [| discriminate].
    apply IH in Hexec as (Hp & Hb & Hs).
    rewrite !occurrences_cons.
    unfold passBudget, passesRunning in *.
    destruct rt0 as [w0 [run0 full0] d0 tk0 n0].
    destruct e; simpl in Hone.
    + unfold TickerFire in Hone. simpl in Hone.
      destruct run0; [| discriminate].
      inversion Hone. subst rt1. simpl in *.
      destruct full0; lia.
    + destruct tk0; try discriminate. destruct d0; try discriminate.
      inversion Hone. subst rt1. simpl in *. lia.
    + destruct tk0; try discriminate. destruct full0; try discriminate.
      inversion Hone. subst rt1. simpl in *. lia.
    + destruct tk0; try discriminate.
      destruct (runTick c w0) as [u w']. inversion Hone. subst rt1.
      simpl in *. lia.
Qed.

(** X15.  In every run after [NewCleaner]: a pass begins only by taking a
    tick, so the passes begun, plus the tick that may wait in the channel,
    never exceed the ticks the ticker has sent (ticks that find the channel
    full are dropped); and passes do not overlap: all passes begun have
    returned, but for the one that may be running. *)
Theorem run_passes_and_ticks (manager : Manager) (walDirectory : string)
    (minAge period : time.Duration) (w : World) (c : walCleaner)
    (rt0 rt : Runtime) (es : list event) :
  NewCleaner manager walDirectory minAge period w = Returns (c, rt0) →
  execAll c es rt0 = Some rt →
  (passesBegun rt = occurrences RecvTick es
   ∧ passesBegun rt + (if time.full (ticker rt) then 1 else 0)
     ≤ occurrences Tick es
   ∧ passesBegun rt
     = occurrences PassReturns es
       + passesRunning rt)%nat.
Proof.
  intros Hnew Hexec.
  apply execAll_counts in Hexec as (Hp & Hb & Hs).
  unfold NewCleaner, NewTicker in Hnew.
  destruct (period <=? 0); [discriminate |].
  inversion Hnew. subst c rt0. clear Hnew.
  unfold passBudget, passesRunning in *. simpl in *. lia.
Qed.

Lemma run_passes_and_ticks_witness :
  ∃ rt, execAll Scenario.cleaner Scenario.busy Scenario.started = Some rt
        ∧ passesBegun rt = 1%nat ∧ time.full (ticker rt) = true
        ∧ task rt = InPass.
Proof.
  eexists. split; [reflexivity |].
  pose proof (run_passes_and_ticks Scenario.registry "/wal" (6 * time.Hour)
                time.Hour Scenario.theWorld Scenario.cleaner
                Scenario.started _ Scenario.busy eq_refl eq_refl)
    as (Hp & _ & _).
  split; [exact Hp |]. split; reflexivity.
Defined.

(** * The testing server of [tempoutils] *)

Section TestingServer.

Context {St : Type}.
Variable Intn : Z → St → Z * St.
Variable NewServer : string → St → result (tempoutils.Server St) * St.

(** [rand.Intn(n)] returns a number in [[0, n)]. *)
Hypothesis Intn_range : ∀ n σ, 0 < n → 0 <= (Intn n σ).1 < n.

Lemma stopLoop_decided (deps : list (tempoutils.action St)) (e : error) :
  ∀ σ, (tempoutils.stopLoop St deps (Some e) σ).1 = Some e.
Proof.
  induction deps as [| dep deps IH]; intros σ; [reflexivity |].
  cbn [tempoutils.stopLoop]. destruct (dep σ) as [[e' |] σ']; apply IH.
Qed.

Lemma stopLoop_state (deps : list (tempoutils.action St)) :
  ∀ firstErr σ,
    (tempoutils.stopLoop St deps firstErr σ).2
    = foldl (λ σ dep, (dep σ).2) σ deps.
Proof.
  induction deps as [| dep deps IH]; intros firstErr σ; [reflexivity |].
  cbn [tempoutils.stopLoop foldl]. destruct (dep σ) as [err σ'].
  rewrite IH. reflexivity.
Qed.

(** X16.  [Server.Stop] shuts down the receivers, then the pipelines, then
    the exporters, each in the state the one before left, and goes on when
    one of them fails; it returns the first error in that order, hence nil
    exactly when all three return nil. *)
Theorem tempoutils_Stop_first_error (s : tempoutils.Server St) (σ : St) :
  let r1 := tempoutils.receivers_ShutdownAll St s σ in
  let r2 := tempoutils.pipelines_ShutdownProcessors St s r1.2 in
  let r3 := tempoutils.exporters_ShutdownAll St s r2.2 in
  (tempoutils.Stop St s σ).2 = r3.2
  ∧ (tempoutils.Stop St s σ).1
    = match r1.1, r2.1 with
      | Some e, _ => Some e
      | None, Some e => Some e
      | None, None => r3.1
      end
  ∧ ((tempoutils.Stop St s σ).1 = None
     ↔ r1.1 = None ∧ r2.1 = None ∧ r3.1 = None).
Proof.
  cbv zeta. unfold tempoutils.Stop. split; [apply stopLoop_state |].
  cbn [tempoutils.stopLoop].
  destruct (tempoutils.receivers_ShutdownAll St s σ) as [[e1 |] σ1];
    cbn [fst snd];
    destruct (tempoutils.pipelines_ShutdownProcessors St s σ1)
      as [[e2 |] σ2];
    cbn [fst snd];
    destruct (tempoutils.exporters_ShutdownAll St s σ2) as [[e3 |] σ3];
    cbn [fst snd]; split; try reflexivity;
    split; try discriminate; try tauto;
    intros (H1 & H2 & H3); discriminate.
Qed.

Lemma attempts_outcome (n : nat) :
  ∀ lastError σ srv addr err σ',
    tempoutils.attempts St Intn NewServer n lastError σ
    = ((srv, addr, err), σ') →
    (∃ server port σ1,
       srv = Some server ∧ err = None
       ∧ 49152 <= port <= 65534
       ∧ addr = "127.0.0.1:" +:+ pretty port
       ∧ NewServer addr σ1 = (Ok server, σ'))
    ∨ (srv = None ∧ addr = ""
       ∧ err = Some (Errorf
                       ("failed 5 times to create a server. last error: "
                        +:+ tempoutils.errorText
                              (match n with
                               | O => lastError
                               | _ => None
                               end)))
       ∧ n = O)
    ∨ (srv = None ∧ addr = ""
       ∧ ∃ e a σ1,
           NewServer a σ1 = (Err e, σ')
           ∧ err = Some (Errorf
                           ("failed 5 times to create a server. last error: "
                            +:+ tempoutils.errorText (Some e)))).
Proof.
  induction n as [| n IH]; intros lastError σ srv addr err σ' Hrun.
  - cbn in Hrun. inversion Hrun. subst. right. left. auto.
  - cbn [tempoutils.attempts] in Hrun.
    pose proof (Intn_range (65535 - 49152) σ eq_refl) as Hr.
    destruct (Intn (65535 - 49152) σ) as [r σ1]. cbn [fst] in Hr.
    destruct (NewServer ("127.0.0.1:" +:+ pretty (r + 49152)) σ1)
      as [[server | e] σ2] eqn:Hnew.
    + inversion Hrun. subst. left.
      exists server, (r + 49152), σ1. repeat split; try lia. exact Hnew.
    + destruct (IH (Some e) σ2 srv addr err σ' Hrun)
        as [Hok | [(Hs & Ha & He & Hn) | Hfail]].
      * left. exact Hok.
      * subst n. cbn in Hrun. inversion Hrun. subst.
        right. right. repeat split.
        exists e, ("127.0.0.1:" +:+ pretty (r + 49152)), σ1.
        split; [exact Hnew | reflexivity].
      * right. right. exact Hfail.
Qed.

(** X17.  When [NewServerWithRandomPort] returns a server, the error is
    nil, and the address returned is [127.0.0.1:port] with a port from
    49152 to 65534 on which [NewServer] made that server, in a call after
    which nothing more was done. *)
Theorem NewServerWithRandomPort_success (σ σ' : St)
    (server : tempoutils.Server St) (addr : string) (err : option error) :
  tempoutils.NewServerWithRandomPort St Intn NewServer σ
  = ((Some server, addr, err), σ') →
  err = None
  ∧ ∃ port σ1,
      49152 <= port <= 65534
      ∧ addr = "127.0.0.1:" +:+ pretty port
      ∧ NewServer addr σ1 = (Ok server, σ').
Proof.
  intros Hrun. apply attempts_outcome in Hrun
    as [(srv & port & σ1 & Hs & He & Hp & Ha & Hn)
       | [(Hs & _) | (Hs & _)]]; try discriminate.
  inversion Hs. subst srv. split; [exact He |]. eauto.
Qed.

(** X18.  When [NewServerWithRandomPort] returns no server, the address is
    empty and the error is "failed 5 times to create a server" around the
    error of a failed call of [NewServer], the last one: nothing was done
    after it.  It never returns neither server nor error. *)
Theorem NewServerWithRandomPort_failure (σ σ' : St) (addr : string)
    (err : option error) :
  tempoutils.NewServerWithRandomPort St Intn NewServer σ
  = ((None, addr, err), σ') →
  addr = ""
  ∧ ∃ e a σ1,
      NewServer a σ1 = (Err e, σ')
      ∧ err = Some (Errorf
                      ("failed 5 times to create a server. last error: "
                       +:+ tempoutils.errorText (Some e))).
Proof.
  intros Hrun. apply attempts_outcome in Hrun
    as [(srv & port & σ1 & Hs & _)
       | [(_ & _ & _ & Hn) | (_ & Ha & Hfail)]]; try discriminate.
  split; [exact Ha | exact Hfail].
Qed.

End TestingServer.

Lemma TestServer_Intn_range (n : Z) (σ : list Z) :
  0 < n → 0 <= (TestServer.Intn n σ).1 < n.
Proof.
  intros Hn. destruct σ as [| r σ]; simpl; [lia |].
  apply Z.mod_pos_bound. exact Hn.
Qed.

Lemma NewServerWithRandomPort_success_witness :
  None = (None : option error)
  ∧ ∃ port σ1,
      49152 <= port <= 65534
      ∧ "127.0.0.1:49157" = "127.0.0.1:" +:+ pretty port
      ∧ TestServer.NewServer "127.0.0.1:49157" σ1
        = (Ok TestServer.server, [7]).
Proof.
  apply (NewServerWithRandomPort_success TestServer.Intn TestServer.NewServer
           TestServer_Intn_range [1; 16388; 7] [7] TestServer.server
           "127.0.0.1:49157" None).
  vm_compute. reflexivity.
Defined.

Lemma NewServerWithRandomPort_failure_witness :
  "" = ""
  ∧ ∃ e a σ1,
      TestServer.NewServer a σ1 = (Err e, [9])
      ∧ Some (Errorf "failed 5 times to create a server. last error: address already in use")
        = Some (Errorf
                  ("failed 5 times to create a server. last error: "
                   +:+ tempoutils.errorText (Some e))).
Proof.
  apply (NewServerWithRandomPort_failure TestServer.Intn TestServer.NewServer
           TestServer_Intn_range [1; 1; 16384; 1; 1; 9] [9] ""
           (Some (Errorf "failed 5 times to create a server. last error: address already in use"))).
  vm_compute. reflexivity.
Defined.
